(** * MonkeyNote icon generator: [doc/generate_icons.py]

    A shallow embedding of [create_icon_with_padding], of the driver [main]
    and of the parts of Python and Pillow they call, followed by the
    properties of the renderer and of the driver.

    Definitions:
    - [Py]: Python's exceptions and the int/float arithmetic of line 14 and
      line 21 (binary64, through the Standard Library's [SpecFloat]).
    - [PIL]: images, and the Pillow operations the script calls; the
      decoders, the encoder, the resampler and the rasteriser are the
      fields of [Backend].
    - [Icons]: the script's function, line by line, over a world made of a
      file store and the standard output.
    - [Reference]: a backend to run the model on.
    - [Spec], [Rounding], [Shapes], [Samples]: the specification's formulas,
      and what the proofs and the examples name.
    - [Driver]: [main], its constants and [os.path.join].
    - [Runs], [Stores]: the calls of the driver one by one, and the stores
      of its examples.
    - [Mask]: the rounded rectangle that the mask is filled with.
    - [Agreement]: what two images, and two results, have in common when
      two calls are compared.

    Proofs: the rounding of line 14 and line 21, the pipeline of lines
    17-39, the claims C1 to C10, the requests that succeed and fail, the
    samples of the output, the driver, and the examples. Sizes and percents
    are Python ints, as the driver passes them. *)

From Stdlib Require Import ZArith Lia Bool List String QArith Qround.
From Stdlib Require Import Floats.SpecFloat.
From stdpp Require Import gmap strings pretty.

Local Open Scope Z_scope.

(** ** Python: exceptions and numbers *)

Module Py.

(** The exception classes the script can meet. *)
Inductive exn :=
| OSError             (* missing, undecodable or unwritable file *)
| ValueError          (* invalid argument *)
| OverflowError       (* int too large for a float, int(inf) *)
| ZeroDivisionError.

Inductive result (A : Type) :=
| Ok (a : A)
| Raise (e : exn).
Arguments Ok {A} a.
Arguments Raise {A} e.

Definition bind {A B} (r : result A) (k : A -> result B) : result B :=
  match r with
  | Ok a => k a
  | Raise e => Raise e
  end.

Declare Scope py_scope.
Delimit Scope py_scope with py.
Notation "x <- r ;; k" := (bind r (fun x => k))
  (at level 100, r at next level, right associativity) : py_scope.

(** Python floats are IEEE 754 binary64. *)
Definition prec : Z := 53.
Definition emax : Z := 1024.
Definition float := spec_float.

Definition fsub : float -> float -> float := SFsub prec emax.
Definition fmul : float -> float -> float := SFmul prec emax.

(** [float(n)] for an int [n], as done implicitly by [int - float] and
    [int * float]: correctly rounded, OverflowError beyond the range. *)
Definition float_of_int (n : Z) : result float :=
  match binary_normalize prec emax n 0 false with
  | S754_infinity _ => Raise OverflowError
  | f => Ok f
  end.

(** An int as an unrounded mantissa with exponent 0. *)
Definition raw (n : Z) : float :=
  match n with
  | Z0 => S754_zero false
  | Zpos m => S754_finite false m 0
  | Zneg m => S754_finite true m 0
  end.

(** [a / b] on two ints (true division): the correctly rounded quotient. *)
Definition int_true_div (a b : Z) : result float :=
  if b =? 0 then Raise ZeroDivisionError
  else match SFdiv prec emax (raw a) (raw b) with
       | S754_infinity _ => Raise OverflowError
       | q => Ok q
       end.

(** [int(f)]: truncation toward zero. *)
Definition int_of_float (f : float) : result Z :=
  match f with
  | S754_zero _ => Ok 0
  | S754_finite s m e => Ok (cond_Zopp s (Z.shiftl (Zpos m) e))
  | S754_infinity _ => Raise OverflowError
  | S754_nan => Raise ValueError
  end.

(** [int - float] and [int * float]. *)
Definition int_sub_float (n : Z) (f : float) : result float :=
  (x <- float_of_int n ;; Ok (fsub x f))%py.

Definition int_mul_float (n : Z) (f : float) : result float :=
  (x <- float_of_int n ;; Ok (fmul x f))%py.

End Py.

Import Py.
Local Open Scope py_scope.

(** ** Pillow *)

Module PIL.

Inductive mode := L | RGBA.

Definition mode_eqb (a b : mode) : bool :=
  match a, b with
  | L, L | RGBA, RGBA => true
  | _, _ => false
  end.

(** Bands are numbered as Pillow stores them: R, G, B, A for RGBA; the
    single band of an L image is band 0. *)
Definition band := nat.
Definition A_band : band := 3%nat.

Record image := Image {
  im_mode : mode;
  im_width : Z;
  im_height : Z;
  im_data : band -> Z -> Z -> Z
}.

Definition inside (im : image) (x y : Z) : bool :=
  (0 <=? x) && (x <? im_width im) && (0 <=? y) && (y <? im_height im).

(** [im.getpixel((x, y))[b]], [None] standing for IndexError. *)
Definition getpixel (im : image) (b : band) (x y : Z) : option Z :=
  if inside im x y then Some (im_data im b x y) else None.

Definition alpha_at (im : image) (x y : Z) : option Z := getpixel im A_band x y.

(** Samples are bytes. *)
Definition well_formed (im : image) : Prop :=
  forall b x y, 0 <= im_data im b x y <= 255.

(** The parts of Pillow that the script relies on and that are taken as
    given: the file decoders, the PNG encoder, the Lanczos resampler and
    the rasteriser behind [ImageDraw.rounded_rectangle]. *)
Class Backend := {
  (** [Image.open(...)]: the decoded image of a file's bytes, if any. *)
  decode : list Byte.byte -> option image;
  decode_well_formed : forall bs im, decode bs = Some im -> well_formed im;
  decode_size : forall bs im, decode bs = Some im ->
    1 <= im_width im /\ 1 <= im_height im;
  (** [im.save(..., "PNG")]. *)
  png_encode : image -> list Byte.byte;
  (** Samples of [im] resampled to [w] x [h] with the Lanczos filter. *)
  lanczos : image -> Z -> Z -> band -> Z -> Z -> Z;
  lanczos_byte : forall im w h b x y, 0 <= lanczos im w h b x y <= 255;
  (** Whether the rounded rectangle of corners [(x0, y0)], [(x1, y1)] and
      radius [r] covers the pixel [(x, y)]. *)
  rr_covers : Z -> Z -> Z -> Z -> Z -> Z -> Z -> bool
}.

(** [Image.new(mode, (w, h), color)] *)
Definition new (m : mode) (w h : Z) (color : band -> Z) : result image :=
  if (w <? 0) || (h <? 0) then Raise ValueError
  else Ok (Image m w h (fun b _ _ => color b)).

(** [im.convert("RGBA")] *)
Definition convert_RGBA (im : image) : image :=
  match im_mode im with
  | RGBA => im
  | L => Image RGBA (im_width im) (im_height im)
           (fun b x y => if (b <? 3)%nat then im_data im 0%nat x y else 255)
  end.

(** [im.resize((w, h), Image.Resampling.LANCZOS)]: a copy when the size
    is unchanged, ValueError for an empty target. *)
Definition resize `{Backend} (im : image) (w h : Z) : result image :=
  if (im_width im =? w) && (im_height im =? h) then Ok im
  else if (w <? 1) || (h <? 1) then Raise ValueError
  else Ok (Image (im_mode im) w h (lanczos im w h)).

(** [im.getchannel(b)] *)
Definition getchannel (im : image) (b : band) : image :=
  Image L (im_width im) (im_height im) (fun _ x y => im_data im b x y).

Definition clip8 (v : Z) : Z :=
  if v <=? 0 then 0 else if 255 <=? v then 255 else v.

(** [ImageChops.multiply(a, b)]: [a * b / 255] on every sample. *)
Definition multiply (a b : image) : result image :=
  if mode_eqb (im_mode a) (im_mode b) then
    Ok (Image (im_mode a)
          (Z.min (im_width a) (im_width b)) (Z.min (im_height a) (im_height b))
          (fun c x y => clip8 (Z.quot (im_data a c x y * im_data b c x y) 255)))
  else Raise ValueError.

(** [im.putalpha(alpha)] for an RGBA image and an L image of its size. *)
Definition putalpha (im alpha : image) : result image :=
  if mode_eqb (im_mode im) RGBA && mode_eqb (im_mode alpha) L
     && (im_width alpha =? im_width im) && (im_height alpha =? im_height im)
  then Ok (Image RGBA (im_width im) (im_height im)
             (fun b x y => if (b =? A_band)%nat then im_data alpha 0%nat x y
                           else im_data im b x y))
  else Raise ValueError.

(** [ImageDraw.Draw(im).rounded_rectangle([(x0, y0), (x1, y1)], radius=r, fill=v)] *)
Definition rounded_rectangle `{Backend} (im : image) (x0 y0 x1 y1 r v : Z)
  : result image :=
  if (x1 <? x0) || (y1 <? y0) then Raise ValueError
  else Ok (Image (im_mode im) (im_width im) (im_height im)
             (fun b x y => if rr_covers x0 y0 x1 y1 r x y then v
                           else im_data im b x y)).

(** Pillow's blend of two samples under a mask value, stored in a byte:
    [DIV255(in1 * (255 - mask) + in2 * mask)]. *)
Definition DIV255 (a : Z) : Z :=
  let tmp := a + 128 in Z.shiftr (Z.shiftr tmp 8 + tmp) 8.

Definition BLEND (mask in1 in2 : Z) : Z :=
  DIV255 (in1 * (255 - mask) + in2 * mask) mod 256.

Definition mask_band (m : mode) : band :=
  match m with L => 0%nat | RGBA => A_band end.

(** [dst.paste(src, (dx, dy), msk)] *)
Definition paste (dst src : image) (dx dy : Z) (msk : image) : result image :=
  if mode_eqb (im_mode dst) (im_mode src)
     && (im_width msk =? im_width src) && (im_height msk =? im_height src)
  then Ok (Image (im_mode dst) (im_width dst) (im_height dst)
             (fun b x y =>
                if inside src (x - dx) (y - dy)
                then BLEND (im_data msk (mask_band (im_mode msk)) (x - dx) (y - dy))
                           (im_data dst b x y)
                           (im_data src b (x - dx) (y - dy))
                else im_data dst b x y))
  else Raise ValueError.

End PIL.

(** ** The script *)

Module Icons.
Import PIL.

(** The world of the script: the file store, the paths that cannot be
    written, and what has been printed. *)
Record world := World {
  files : gmap string (list Byte.byte);
  readonly : gset string;
  stdout : list string
}.

(** Computations that read and change the world and may raise. *)
Definition io (A : Type) : Type := world -> result A * world.

Definition io_bind {A B} (c : io A) (k : A -> io B) : io B :=
  fun w => match c w with
           | (Ok a, w') => k a w'
           | (Raise e, w') => (Raise e, w')
           end.

Definition lift {A} (r : result A) : io A := fun w => (r, w).

Declare Scope io_scope.
Delimit Scope io_scope with io.
Notation "x <- c ;; k" := (io_bind c (fun x => k))
  (at level 100, c at next level, right associativity) : io_scope.
Notation "c ;; k" := (io_bind c (fun _ => k))
  (at level 100, right associativity) : io_scope.

Section WithBackend.
Context `{Backend}.

(** [Image.open(path)] *)
Definition Image_open (path : string) : io image :=
  fun w => match files w !! path with
           | None => (Raise OSError, w)
           | Some bs => match decode bs with
                        | None => (Raise OSError, w)
                        | Some im => (Ok im, w)
                        end
           end.

(** [im.save(path, "PNG")] *)
Definition save (im : image) (path : string) : io unit :=
  fun w => if decide (path ∈ readonly w) then (Raise OSError, w)
           else (Ok tt, World (<[path := png_encode im]> (files w))
                              (readonly w) (stdout w)).

Definition print (line : string) : io unit :=
  fun w => (Ok tt, World (files w) (readonly w) (stdout w ++ [line])).

(** Line 14: [int(size * (1 - padding_percent / 100))] *)
Definition inner_size (size padding_percent : Z) : result Z :=
  q <- int_true_div padding_percent 100 ;;
  f <- int_sub_float 1 q ;;
  g <- int_mul_float size f ;;
  int_of_float g.

(** Lines 21-22: [max(1, int(inner_size * corner_radius_percent / 100))] *)
Definition corner_radius (inner_size corner_radius_percent : Z) : result Z :=
  q <- int_true_div (inner_size * corner_radius_percent) 100 ;;
  radius <- int_of_float q ;;
  Ok (Z.max 1 radius).

(** Lines 23-29: the mask. *)
Definition rounded_mask (inner_size radius : Z) : result image :=
  mask <- new L inner_size inner_size (fun _ => 0) ;;
  rounded_rectangle mask 0 0 (inner_size - 1) (inner_size - 1) radius 255.

(** Lines 21-30: the body of [if corner_radius_percent > 0]. *)
Definition round_corners (img_resized : image)
    (inner_size corner_radius_percent : Z) : result image :=
  radius <- corner_radius inner_size corner_radius_percent ;;
  mask <- rounded_mask inner_size radius ;;
  alpha <- multiply (getchannel img_resized A_band) mask ;;
  putalpha img_resized alpha.

(** Lines 17-30: the resized and possibly masked image. *)
Definition prepare (img : image) (inner_size corner_radius_percent : Z)
  : result image :=
  img_resized <- resize img inner_size inner_size ;;
  if 0 <? corner_radius_percent
  then round_corners img_resized inner_size corner_radius_percent
  else Ok img_resized.

(** Lines 33-39: the canvas and the paste. *)
Definition composite (img_resized : image) (size inner_size : Z)
  : result image :=
  new_img <- new RGBA size size (fun _ => 0) ;;
  let pos := (size - inner_size) / 2 in
  paste new_img img_resized pos pos img_resized.

(** Lines 14-39, from the opened image to the one that is saved. *)
Definition render (img : image)
    (size padding_percent corner_radius_percent : Z) : result image :=
  inner_size <- inner_size size padding_percent ;;
  img_resized <- prepare img inner_size corner_radius_percent ;;
  composite img_resized size inner_size.

Definition created_line (output_path : string) (size : Z) : string :=
  "Created: " +:+ output_path +:+ " (" +:+ pretty size +:+ "x"
    +:+ pretty size +:+ ")".

Definition create_icon_with_padding (input_path output_path : string)
    (size padding_percent corner_radius_percent : Z) : io unit :=
  (opened <- Image_open input_path ;;
   let img := convert_RGBA opened in
   new_img <- lift (render img size padding_percent corner_radius_percent) ;;
   save new_img output_path ;;
   print (created_line output_path size))%io.

End WithBackend.

End Icons.

(** ** A backend to run the model on

    Files hold a width byte, a height byte and the RGBA samples row by row;
    the resampler takes the nearest sample; the rounded rectangle is the set
    of pixels within [r] of the rectangle shrunk by [r]. *)

Module Reference.
Import PIL.

Definition byte_val (b : Byte.byte) : Z := Z.of_N (Byte.to_N b).

Definition to_byte (v : Z) : Byte.byte :=
  match Byte.of_N (Z.to_N v) with
  | Some b => b
  | None => Byte.x00
  end.

Definition raw_decode (bs : list Byte.byte) : option image :=
  match bs with
  | bw :: bh :: px =>
      let w := byte_val bw in
      let h := byte_val bh in
      if (1 <=? w) && (1 <=? h) && (Z.of_nat (length px) =? 4 * w * h)
      then Some (Image RGBA w h (fun b x y =>
                   byte_val (nth (Z.to_nat (4 * (y * w + x)) + b) px Byte.x00)))
      else None
  | _ => None
  end.

Definition raw_encode (im : image) : list Byte.byte :=
  to_byte (im_width im) :: to_byte (im_height im) ::
  flat_map (fun y =>
    flat_map (fun x =>
      map (fun b => to_byte (im_data im b x y)) [0; 1; 2; 3]%nat)
      (seqZ 0 (im_width im)))
    (seqZ 0 (im_height im)).

Definition nearest (im : image) (w h : Z) (b : band) (x y : Z) : Z :=
  clip8 (im_data im b (x * im_width im / w) (y * im_height im / h)).

Definition clamp (lo hi v : Z) : Z := Z.max lo (Z.min hi v).

Definition disc_corners (x0 y0 x1 y1 r x y : Z) : bool :=
  let cx := clamp (x0 + r) (x1 - r) x in
  let cy := clamp (y0 + r) (y1 - r) y in
  (x0 <=? x) && (x <=? x1) && (y0 <=? y) && (y <=? y1)
  && ((x - cx) * (x - cx) + (y - cy) * (y - cy) <=? r * r).

#[export] Program Instance backend : Backend := {|
  decode := raw_decode;
  png_encode := raw_encode;
  lanczos := nearest;
  rr_covers := disc_corners
|}.
Next Obligation.
  intros bs im Hd b x y. unfold raw_decode in Hd.
  destruct bs as [|bw [|bh px]]; try discriminate.
  destruct (_ && _); [|discriminate].
  injection Hd as <-. simpl. unfold byte_val.
  match goal with |- context [Byte.to_N ?c] =>
    pose proof (Byte.to_N_bounded c) end. lia.
Qed.
Next Obligation.
  intros bs im Hd. unfold raw_decode in Hd.
  destruct bs as [|bw [|bh px]]; try discriminate.
  destruct ((1 <=? byte_val bw) && (1 <=? byte_val bh)
            && (Z.of_nat (length px) =? 4 * byte_val bw * byte_val bh)) eqn:E;
    [|discriminate].
  injection Hd as <-. simpl.
  apply andb_prop in E as [E _]. apply andb_prop in E as [E1 E2]. lia.
Qed.
Next Obligation.
  intros im w h b x y. unfold nearest, clip8.
  destruct (Z.leb_spec (im_data im b (x * im_width im / w) (y * im_height im / h)) 0);
    [lia|].
  destruct (Z.leb_spec 255
              (im_data im b (x * im_width im / w) (y * im_height im / h))); lia.
Qed.

End Reference.

(** ** The spec's formulas

    What the specification says lines 14 and 21-22 compute, in exact
    rational arithmetic, to be compared with [inner_size] and
    [corner_radius]. *)

Module Spec.

(** [floor(target_size * (1 - padding_fraction))], with
    [padding_fraction = padding_percent / 100]. *)
Definition spec_inner_size (size padding_percent : Z) : Z :=
  Qfloor (inject_Z size * (1 - inject_Z padding_percent / 100))%Q.

(** [max(1, floor(inner_size * corner_radius_fraction))], with
    [corner_radius_fraction = corner_radius_percent / 100]. *)
Definition spec_radius (inner_size corner_radius_percent : Z) : Z :=
  Z.max 1 (Qfloor (inject_Z inner_size * (inject_Z corner_radius_percent / 100))%Q).

End Spec.

(** ** Rounding to binary64, in closed form *)

Module Rounding.

(** The mantissa kept by [binary_round_aux]: [n] bits dropped, the rest
    rounded to nearest, ties to even. *)
Definition round_shift (mx : Z) (lx : location) (n : Z) : Z :=
  let mrs := fst (shr (shr_record_of_loc mx lx) 0 n) in
  round_nearest_even (shr_m mrs) (loc_of_shr_record mrs).

(** The location of the fraction [rm / den] (for an even [den], what
    [new_location den rm] returns). *)
Definition location_of (den rm : Z) : location :=
  if rm =? 0 then loc_Exact else loc_Inexact (2 * rm ?= den).

(** [1 - padding_percent / 100] *)
Definition padding_factor (p : Z) : result float :=
  (q <- int_true_div p 100 ;; int_sub_float 1 q)%py.

(** The factor is a normal positive float within [2 ^ -53] of
    [(100 - p) / 100]. *)
Definition factor_ok (p : Z) : bool :=
  match padding_factor p with
  | Ok (S754_finite false mp ep) =>
      (2 ^ 52 <=? Zpos mp) && (Zpos mp <? 2 ^ 53) && (-60 <=? ep) && (ep <=? -52)
      && (Z.abs (100 * Zpos mp - (100 - p) * 2 ^ (- ep)) * 2 ^ 53 <=? 100 * 2 ^ (- ep))
  | _ => false
  end.

End Rounding.

(** ** What the lines of the script build *)

Module Shapes.
Import PIL.

(** The resized image after the mask of radius [radius] has been
    multiplied into its alpha band (line 30). *)
Definition masked `{Backend} (img_resized : image) (n radius : Z) : image :=
  Image RGBA (im_width img_resized) (im_height img_resized)
    (fun b x y =>
       if (b =? A_band)%nat
       then clip8 (Z.quot (im_data img_resized A_band x y *
                           (if rr_covers 0 0 (n - 1) (n - 1) radius x y
                            then 255 else 0)) 255)
       else im_data img_resized b x y).

(** The image kept after lines 17-30. *)
Definition prepared `{Backend} (img_resized : image) (n c : Z) : image :=
  if 0 <? c then masked img_resized n (Z.max 1 (n * c / 100)) else img_resized.

(** The transparent [size] x [size] canvas with [src] pasted at
    [(pos, pos)] under its own alpha (lines 33-39). *)
Definition placed (src : image) (size pos : Z) : image :=
  Image RGBA size size
    (fun b x y =>
       if inside src (x - pos) (y - pos)
       then BLEND (im_data src A_band (x - pos) (y - pos)) 0
                  (im_data src b (x - pos) (y - pos))
       else 0).

Definition byte_range : list Z := map Z.of_nat (seq 0 256).

(** What pasting a sample [a] under itself onto transparency gives. *)
Definition self_blend_ok (a : Z) : bool :=
  (BLEND a 0 a =? DIV255 (a * a))
  && (2 * Z.abs (255 * DIV255 (a * a) - a * a) <=? 255)
  && (if (0 <? a) && (a <? 255) then DIV255 (a * a) <? a
      else DIV255 (a * a) =? a).

End Shapes.

(** ** Inputs for the examples *)

Module Samples.
Import PIL Icons.

(** A square RGBA image with every sample equal to [a]. *)
Definition flat_square (n a : Z) : image := Image RGBA n n (fun _ _ _ => a).

(** A store with the source icon only. *)
Definition icon_bytes : list Byte.byte := Reference.raw_encode (flat_square 2 128).
Definition sample_world : world :=
  World {[ "doc/icon.png"%string := icon_bytes ]} ∅ [].
Definition other_world : world :=
  World {[ "icon.png"%string := icon_bytes; "notes.txt"%string := [] ]} ∅
        ["hello"%string].

(** The source icon, decoded by the reference backend. *)
Definition opened_icon : image :=
  match Reference.raw_decode icon_bytes with
  | Some im => im
  | None => flat_square 1 0
  end.

End Samples.

(** ** The driver *)

Module Driver.
Import PIL Icons.

(** [os.path.join(a, b)] on POSIX paths: an absolute [b] replaces [a],
    and the separator is added unless [a] ends with one. *)
Definition startswith (s pre : string) : bool := String.prefix pre s.

Definition endswith (s suf : string) : bool :=
  String.prefix (String.rev suf) (String.rev s).

Definition os_path_join (a b : string) : string :=
  if startswith b "/" || (String.length a =? 0)%nat then b
  else if endswith a "/" then a +:+ b
  else a +:+ "/" +:+ b.

(** Lines 47-53. *)
Definition input_icon : string := "doc/icon.png".
Definition appicon_dir : string :=
  "MonkeyNote/Assets.xcassets/AppIcon.appiconset".
Definition icon_sizes : list Z := [16; 32; 128; 256; 512].
Definition padding : Z := 15.
Definition corner_radius_percent : Z := 20.

(** Line 57 and line 61. *)
Definition output_path_1x (size : Z) : string :=
  os_path_join appicon_dir
    ("icon_" +:+ pretty size +:+ "x" +:+ pretty size +:+ ".png").

Definition output_path_2x (size : Z) : string :=
  os_path_join appicon_dir
    ("icon_" +:+ pretty size +:+ "x" +:+ pretty size +:+ "@2x.png").

(** Line 64: the text starts with a line feed. *)
Definition done_line : string :=
  String (Ascii.ascii_of_nat 10)
    ("Done! All icons generated with " +:+ pretty padding
     +:+ "% transparent padding and " +:+ pretty corner_radius_percent
     +:+ "% corner radius.").

(** [for x in xs: body(x)] *)
Fixpoint for_each {A} (xs : list A) (body : A -> io unit) : io unit :=
  match xs with
  | [] => lift (Ok tt)
  | x :: rest => (body x ;; for_each rest body)%io
  end.

Section WithBackend.
Context `{Backend}.

Definition main : io unit :=
  (for_each icon_sizes (fun size =>
     create_icon_with_padding input_icon (output_path_1x size) size
       padding corner_radius_percent ;;
     create_icon_with_padding input_icon (output_path_2x size) (size * 2)
       padding corner_radius_percent) ;;
   print done_line)%io.

End WithBackend.

End Driver.

(** ** The calls of the driver, one by one *)

Module Runs.
Import PIL Icons Driver.

(** A call of [create_icon_with_padding] by the driver: its output path
    and its size. *)
Definition call : Type := string * Z.

(** The two calls of one turn of the loop, and those of the whole loop. *)
Definition calls_of (size : Z) : list call :=
  [(output_path_1x size, size); (output_path_2x size, size * 2)].

Definition calls : list call := flat_map calls_of icon_sizes.

Definition lines_of (cs : list call) : list string :=
  map (fun c => created_line (fst c) (snd c)) cs.

Section WithBackend.
Context `{Backend}.

Definition run_calls (cs : list call) : io unit :=
  for_each cs (fun c =>
    create_icon_with_padding input_icon (fst c) (snd c)
      padding corner_radius_percent).

(** The image a call saves when its rendering succeeds. *)
Definition rendered (opened : image) (size : Z) : image :=
  match render (convert_RGBA opened) size padding corner_radius_percent with
  | Ok out => out
  | Raise _ => opened
  end.

(** The store after the calls [cs] have saved their images. *)
Definition write_all (opened : image) (cs : list call)
    (m : gmap string (list Byte.byte)) : gmap string (list Byte.byte) :=
  foldl (fun m c => <[fst c := png_encode (rendered opened (snd c))]> m) m cs.

(** What the calls [cs] leave at [path], over the earlier content [old]. *)
Definition last_write (opened : image) (path : string) (cs : list call)
    (old : option (list Byte.byte)) : option (list Byte.byte) :=
  foldl (fun acc c => if decide (fst c = path)
                      then Some (png_encode (rendered opened (snd c)))
                      else acc) old cs.

End WithBackend.

(** What the paste of line 39 does to a sample [v] under the alpha [a]. *)
Definition blend_ok (a v : Z) : bool :=
  (BLEND a 0 v =? DIV255 (v * a))
  && (2 * Z.abs (255 * DIV255 (v * a) - v * a) <=? 255)
  && (DIV255 (v * a) <=? v)
  && (if a =? 255 then DIV255 (v * a) =? v else true)
  && (if a =? 0 then DIV255 (v * a) =? 0 else true).

End Runs.

(** ** Stores for the examples of the driver *)

Module Stores.
Import PIL Icons Driver Runs Samples.

(** The sample store with one output path of the driver made unwritable. *)
Definition blocked_path : string := output_path_2x 16.
Definition blocked_world : world :=
  World {[ "doc/icon.png"%string := icon_bytes ]} {[ blocked_path ]} [].

(** The sample store after one call, and after one run of the driver, on
    the reference backend. *)
Definition after_one_call : world :=
  snd (create_icon_with_padding (H := Reference.backend)
         "doc/icon.png" "icon_4x4.png" 4 0 0 sample_world).

Definition after_main : world :=
  World (write_all (H := Reference.backend) opened_icon calls (files sample_world))
        (readonly sample_world)
        (stdout sample_world ++ lines_of calls ++ [done_line]).

End Stores.

(** ** The rounded rectangle of the mask

    [ImageDraw.rounded_rectangle] with a fill, all four corners rounded and
    the corners not joined ([2 * r < x1 - x0 - 1], and likewise in [y]):
    Pillow fills the band between the corner columns, the two side bands
    between the corner rows, and in each corner square a pie slice, a
    quarter of the disc of radius [r] whose centre is the inner corner of
    the square. The arcs are taken as those of the disc. *)

Module Mask.
Import PIL.

Definition in_rect (xa ya xb yb x y : Z) : bool :=
  (xa <=? x) && (x <=? xb) && (ya <=? y) && (y <=? yb).

Definition in_disc (cx cy r x y : Z) : bool :=
  (x - cx) * (x - cx) + (y - cy) * (y - cy) <=? r * r.

Definition rounded_rect (x0 y0 x1 y1 r x y : Z) : bool :=
  in_rect (x0 + r + 1) y0 (x1 - r - 1) y1 x y
  || in_rect x0 (y0 + r + 1) (x0 + r) (y1 - r - 1) x y
  || in_rect (x1 - r) (y0 + r + 1) x1 (y1 - r - 1) x y
  || in_rect x0 y0 (x0 + r) (y0 + r) x y && in_disc (x0 + r) (y0 + r) r x y
  || in_rect (x1 - r) y0 x1 (y0 + r) x y && in_disc (x1 - r) (y0 + r) r x y
  || in_rect (x1 - r) (y1 - r) x1 y1 x y && in_disc (x1 - r) (y1 - r) r x y
  || in_rect x0 (y1 - r) (x0 + r) y1 x y && in_disc (x0 + r) (y1 - r) r x y.

(** A backend whose rasteriser draws this shape; the decoder, the
    resampler and the encoder are those of [B]. *)
Definition with_rounded_rect (B : Backend) : Backend :=
  {| decode := @decode B;
     decode_well_formed := @decode_well_formed B;
     decode_size := @decode_size B;
     png_encode := @png_encode B;
     lanczos := @lanczos B;
     lanczos_byte := @lanczos_byte B;
     rr_covers := rounded_rect |}.

End Mask.

(** ** Two calls

    What Pillow answers is a backend; two calls need not find it in the
    same state, so each call has a backend of its own. *)

Module Agreement.
Import PIL.

(** Two images with the same mode, the same size and the same samples. *)
Definition same_samples (a b : image) : Prop :=
  im_mode a = im_mode b /\ im_width a = im_width b /\
  im_height a = im_height b /\
  forall c x y, inside a x y = true -> im_data a c x y = im_data b c x y.

(** Two results that raise the same exception or are the same image. *)
Definition same_outcome (r1 r2 : result image) : Prop :=
  match r1, r2 with
  | Ok a, Ok b => same_samples a b
  | Raise e1, Raise e2 => e1 = e2
  | _, _ => False
  end.

End Agreement.

Import PIL Icons Spec Rounding Shapes Samples.

(** * Binary64 arithmetic of lines 14 and 21 *)

(** [digits2_pos] counts binary digits. *)
Lemma digits2_pos_bounds p :
  2 ^ (Zpos (digits2_pos p) - 1) <= Zpos p < 2 ^ Zpos (digits2_pos p).
Proof.
  induction p as [p IH|p IH|]; simpl digits2_pos.
  - rewrite Pos2Z.inj_succ.
    replace (Z.succ (Zpos (digits2_pos p)) - 1) with (Z.succ (Zpos (digits2_pos p) - 1)) by lia.
    rewrite !Z.pow_succ_r by lia. lia.
  - rewrite Pos2Z.inj_succ.
    replace (Z.succ (Zpos (digits2_pos p)) - 1) with (Z.succ (Zpos (digits2_pos p) - 1)) by lia.
    rewrite !Z.pow_succ_r by lia. lia.
  - simpl. lia.
Qed.

Lemma Zdigits2_unique m d :
  0 < d -> 2 ^ (d - 1) <= m < 2 ^ d -> Zdigits2 m = d.
Proof.
  intros Hd [Hlo Hhi].
  assert (0 < m) by (pose proof (Z.pow_pos_nonneg 2 (d - 1)); lia).
  destruct m as [|p|p]; try lia. simpl.
  pose proof (digits2_pos_bounds p) as [Blo Bhi].
  set (k := Zpos (digits2_pos p)) in *.
  destruct (Z.lt_trichotomy k d) as [Hlt|[Heq|Hgt]]; [|assumption|].
  - assert (2 ^ k <= 2 ^ (d - 1)) by (apply Z.pow_le_mono_r; lia). lia.
  - assert (2 ^ d <= 2 ^ (k - 1)) by (apply Z.pow_le_mono_r; lia). lia.
Qed.

(** [SpecFloat]'s iterator is [Pos.iter]. *)
Lemma iter_pos_Pos_iter {A} (f : A -> A) p x :
  SpecFloat.iter_pos f p x = Pos.iter f x p.
Proof.
  revert x. induction p as [p IH|p IH|]; intros x; simpl.
  - rewrite !IH. rewrite <- !Pos.iter_swap. reflexivity.
  - rewrite !IH. reflexivity.
  - reflexivity.
Qed.

(** One right shift: halve, keep the dropped bit, accumulate the sticky
    bit. *)
Lemma shr_1_nonneg m r s :
  0 <= m -> shr_1 (Build_shr_record m r s) = Build_shr_record (m / 2) (Z.odd m) (r || s).
Proof.
  intros Hm. destruct m as [|p|p]; [reflexivity| |lia].
  destruct p as [p|p|]; unfold shr_1.
  - f_equal. rewrite Pos2Z.inj_xI. apply Z.div_unique with 1; lia.
  - f_equal. rewrite Pos2Z.inj_xO. apply Z.div_unique with 0; lia.
  - reflexivity.
Qed.

Lemma mod_pow2_succ_zero m k :
  0 <= m -> 0 <= k ->
  (m mod 2 ^ (k + 1) =? 0) = negb (Z.odd (m / 2 ^ k)) && (m mod 2 ^ k =? 0).
Proof.
  intros Hm Hk.
  assert (P : 0 < 2 ^ k) by (apply Z.pow_pos_nonneg; lia).
  rewrite Z.pow_add_r, Z.pow_1_r by lia.
  rewrite Z.rem_mul_r by lia.
  pose proof (Z.mod_pos_bound m (2 ^ k) P) as B1.
  pose proof (Z.mod_pos_bound (m / 2 ^ k) 2 ltac:(lia)) as B2.
  rewrite (Zmod_odd (m / 2 ^ k)) in *.
  destruct (Z.odd (m / 2 ^ k)); simpl.
  - apply Z.eqb_neq. lia.
  - f_equal. lia.
Qed.

(** [n] right shifts, [n >= 1], of a mantissa with its rounding and sticky bits. *)
Lemma shr_iter_nonneg (n : nat) m r s :
  0 <= m ->
  Nat.iter (S n) shr_1 (Build_shr_record m r s) =
  Build_shr_record (m / 2 ^ Z.of_nat (S n)) (Z.odd (m / 2 ^ Z.of_nat n))
    (r || s || negb (m mod 2 ^ Z.of_nat n =? 0)).
Proof.
  intros Hm. induction n as [|n IH].
  - change (Nat.iter 1 shr_1 ?x) with (shr_1 x). rewrite shr_1_nonneg by assumption.
    change (2 ^ Z.of_nat 1) with 2. change (2 ^ Z.of_nat 0) with 1.
    rewrite Z.div_1_r, Z.mod_1_r. simpl. rewrite orb_false_r. reflexivity.
  - change (Nat.iter (S (S n)) shr_1 ?x) with (shr_1 (Nat.iter (S n) shr_1 x)).
    rewrite IH.
    assert (P : 0 < 2 ^ Z.of_nat (S n)) by (apply Z.pow_pos_nonneg; lia).
    rewrite shr_1_nonneg by (apply Z.div_pos; lia).
    f_equal.
    + rewrite Z.div_div by lia. f_equal.
      rewrite (Nat2Z.inj_succ (S n)), Z.pow_succ_r; lia.
    + rewrite (Nat2Z.inj_succ n). unfold Z.succ.
      rewrite mod_pow2_succ_zero by lia.
      rewrite negb_andb, negb_involutive.
      destruct (Z.odd (m / 2 ^ Z.of_nat n)), r, s; reflexivity.
Qed.

Lemma shr_pos mrs e n :
  0 < n -> shr mrs e n = (Nat.iter (Z.to_nat n) shr_1 mrs, e + n).
Proof.
  intros Hn. destruct n as [|p|p]; try lia. unfold shr.
  rewrite iter_pos_Pos_iter, Pos2Nat.inj_iter. reflexivity.
Qed.

Lemma shr_zero mrs e : shr mrs e 0 = (mrs, e).
Proof. reflexivity. Qed.

Lemma shr_fst mrs e n : fst (shr mrs e n) = fst (shr mrs 0 n).
Proof. destruct n; reflexivity. Qed.

Lemma shr_snd mrs e n : 0 <= n -> snd (shr mrs e n) = e + n.
Proof. intros Hn. destruct n; simpl; lia. Qed.

Lemma round_nearest_even_range m l :
  m <= round_nearest_even m l <= m + 1.
Proof.
  destruct l as [|[| |]]; simpl; try lia. destruct (Z.even m); lia.
Qed.

Lemma shr_m_shift mx lx n :
  0 <= mx -> 0 <= n -> shr_m (fst (shr (shr_record_of_loc mx lx) 0 n)) = mx / 2 ^ n.
Proof.
  intros Hm Hn. destruct (Z.eq_dec n 0) as [->|Hne].
  - rewrite shr_zero. simpl. rewrite Z.div_1_r. destruct lx as [|[| |]]; reflexivity.
  - rewrite shr_pos by lia. simpl fst.
    destruct (Z.to_nat n) as [|k] eqn:Ek; [lia|].
    assert (En : n = Z.of_nat (S k)) by lia.
    destruct lx as [|[| |]]; unfold shr_record_of_loc;
      rewrite shr_iter_nonneg by assumption; simpl; rewrite En; reflexivity.
Qed.

Lemma round_shift_range mx lx n :
  0 <= mx -> 0 <= n -> mx / 2 ^ n <= round_shift mx lx n <= mx / 2 ^ n + 1.
Proof.
  intros Hm Hn. unfold round_shift.
  rewrite <- (shr_m_shift mx lx n Hm Hn). apply round_nearest_even_range.
Qed.

Lemma fexp_normal e : -1074 <= e - 53 -> fexp prec emax e = e - 53.
Proof. unfold fexp, emin, prec, emax. lia. Qed.

Lemma pow2_div_range m d n :
  0 <= n < d -> 2 ^ (d - 1) <= m < 2 ^ d -> 2 ^ (d - 1 - n) <= m / 2 ^ n < 2 ^ (d - n).
Proof.
  intros Hn [Hlo Hhi].
  assert (P : 0 < 2 ^ n) by (apply Z.pow_pos_nonneg; lia).
  assert (E1 : 2 ^ (d - 1) = 2 ^ (d - 1 - n) * 2 ^ n)
    by (rewrite <- Z.pow_add_r by lia; f_equal; lia).
  assert (E2 : 2 ^ d = 2 ^ (d - n) * 2 ^ n)
    by (rewrite <- Z.pow_add_r by lia; f_equal; lia).
  split.
  - apply Z.div_le_lower_bound; lia.
  - apply Z.div_lt_upper_bound; lia.
Qed.

(** In the normal range, [binary_round_aux] keeps the 53 leading bits of
    the mantissa, rounded by [round_shift]; a carry to [2 ^ 53] moves to
    the exponent. *)
Lemma binary_round_aux_normal sx mx ex lx :
  0 < mx ->
  let n := Zdigits2 mx - 53 in
  0 <= n -> -1074 <= ex + n -> ex + n + 1 <= 971 ->
  let R := round_shift mx lx n in
  2 ^ 52 <= R <= 2 ^ 53 /\
  binary_round_aux prec emax sx mx ex lx =
    if R <? 2 ^ 53 then S754_finite sx (Z.to_pos R) (ex + n)
    else S754_finite sx (Z.to_pos (2 ^ 52)) (ex + n + 1).
Proof.
  intros Hm n Hn Hlo Hhi R.
  assert (Hd : 2 ^ (Zdigits2 mx - 1) <= mx < 2 ^ Zdigits2 mx).
  { destruct mx as [|p|p]; try lia. apply digits2_pos_bounds. }
  assert (HR : 2 ^ 52 <= R <= 2 ^ 53).
  { pose proof (round_shift_range mx lx n ltac:(lia) Hn) as B. fold R in B.
    pose proof (pow2_div_range mx (Zdigits2 mx) n ltac:(lia) Hd) as B'.
    replace (Zdigits2 mx - 1 - n) with 52 in B' by lia.
    replace (Zdigits2 mx - n) with 53 in B' by lia. lia. }
  split; [exact HR|].
  unfold binary_round_aux, shr_fexp.
  rewrite (fexp_normal (Zdigits2 mx + ex)) by lia.
  replace (Zdigits2 mx + ex - 53 - ex) with n by lia.
  rewrite (surjective_pairing (shr (shr_record_of_loc mx lx) ex n)).
  rewrite shr_fst, shr_snd by assumption.
  change (round_nearest_even _ _) with R.
  destruct (Z.ltb_spec R (2 ^ 53)) as [Hlt|Hge].
  - assert (Zdigits2 R = 53) as -> by (apply Zdigits2_unique; lia).
    rewrite (fexp_normal (53 + (ex + n))) by lia.
    replace (53 + (ex + n) - 53 - (ex + n)) with 0 by lia.
    rewrite shr_zero. simpl shr_m.
    destruct R as [|p|p]; try lia.
    unfold prec, emax.
    destruct (Z.leb_spec (ex + n) (1024 - 53)); [reflexivity|lia].
  - assert (R = 2 ^ 53) as -> by lia.
    change (Zdigits2 (2 ^ 53)) with 54.
    rewrite (fexp_normal (54 + (ex + n))) by lia.
    replace (54 + (ex + n) - 53 - (ex + n)) with 1 by lia.
    simpl. unfold prec, emax.
    destruct (Z.leb_spec (ex + n + 1) (1024 - 53)); [reflexivity|lia].
Qed.

Lemma new_location_even_den den rm :
  Z.even den = true -> new_location den rm = location_of den rm.
Proof.
  intros He. unfold new_location, new_location_even, location_of. rewrite He.
  reflexivity.
Qed.

Lemma round_shift_0 mx lx :
  round_shift mx lx 0 = round_nearest_even mx lx.
Proof.
  unfold round_shift. rewrite shr_zero. simpl fst.
  destruct lx as [|[| |]]; reflexivity.
Qed.

Lemma round_shift_S mx lx k :
  0 <= mx ->
  round_shift mx lx (Z.of_nat (S k)) =
  let s0 := match lx with loc_Exact => false | _ => true end in
  round_nearest_even (mx / 2 ^ Z.of_nat (S k))
    (loc_of_shr_record
       (Build_shr_record (mx / 2 ^ Z.of_nat (S k)) (Z.odd (mx / 2 ^ Z.of_nat k))
          (s0 || negb (mx mod 2 ^ Z.of_nat k =? 0)))).
Proof.
  intros Hm. unfold round_shift. rewrite shr_pos by lia. simpl fst.
  rewrite Nat2Z.id.
  destruct lx as [|[| |]]; unfold shr_record_of_loc;
    rewrite shr_iter_nonneg by assumption; reflexivity.
Qed.

(** [round_shift] returns a nearest multiple: the value [mx + rm / den],
    whose fraction has location [location_of den rm], is at most half a
    unit of the kept mantissa away from it. *)
Lemma round_shift_near mx n den rm :
  0 <= mx -> 0 <= n -> 0 < den -> 0 <= rm < den ->
  let R := round_shift mx (location_of den rm) n in
  2 * den * mx + 2 * rm - den * 2 ^ n <= 2 * den * (R * 2 ^ n)
    <= 2 * den * mx + 2 * rm + den * 2 ^ n.
Proof.
  intros Hm Hn Hden Hrm R.
  destruct (Z.to_nat n) as [|k] eqn:Ek.
  - assert (n = 0) as -> by lia. subst R. rewrite round_shift_0.
    change (2 ^ 0) with 1. unfold location_of.
    destruct (Z.eqb_spec rm 0) as [->|Hne]; simpl; [lia|].
    destruct (Z.compare_spec (2 * rm) den); simpl; try lia.
    destruct (Z.even mx); lia.
  - assert (n = Z.of_nat (S k)) as -> by lia. subst R.
    rewrite round_shift_S by assumption.
    assert (Ek' : Z.of_nat (S k) = Z.of_nat k + 1) by lia.
    assert (P : 0 < 2 ^ Z.of_nat k) by (apply Z.pow_pos_nonneg; lia).
    assert (E2 : 2 ^ Z.of_nat (S k) = 2 ^ Z.of_nat k * 2)
      by (rewrite Ek', Z.pow_add_r, Z.pow_1_r; lia).
    pose proof (Z.div_mod mx (2 ^ Z.of_nat (S k)) ltac:(lia)) as D.
    pose proof (Z.rem_mul_r mx (2 ^ Z.of_nat k) 2 ltac:(lia) ltac:(lia)) as D'.
    rewrite <- E2 in D'. rewrite D' in D.
    pose proof (Z.mod_pos_bound mx (2 ^ Z.of_nat k) P) as B.
    rewrite (Zmod_odd (mx / 2 ^ Z.of_nat k)) in D.
    set (q := mx / 2 ^ Z.of_nat (S k)) in *.
    set (low := mx mod 2 ^ Z.of_nat k) in *.
    set (T := 2 ^ Z.of_nat (S k)) in *.
    set (H := 2 ^ Z.of_nat k) in *.
    cbv zeta.
    assert (S0 : (match location_of den rm with loc_Exact => false | _ => true end)
                 = negb (rm =? 0)).
    { unfold location_of. destruct (rm =? 0); reflexivity. }
    rewrite S0. clear S0.
    destruct (Z.odd (mx / H)) eqn:Eo.
    + destruct (Z.eqb_spec rm 0) as [Hz|Hnz]; simpl negb; simpl orb.
      * destruct (Z.eqb_spec low 0) as [Hl|Hl]; simpl.
        -- destruct (Z.even q); nia.
        -- nia.
      * simpl. nia.
    + destruct (Z.eqb_spec rm 0) as [Hz|Hnz]; simpl negb; simpl orb.
      * destruct (Z.eqb_spec low 0) as [Hl|Hl]; simpl; nia.
      * simpl. nia.
Qed.

Lemma round_shift_exact_near mx n :
  0 <= mx -> 0 <= n ->
  let R := round_shift mx loc_Exact n in
  2 * mx - 2 ^ n <= 2 * (R * 2 ^ n) <= 2 * mx + 2 ^ n.
Proof.
  intros Hm Hn R.
  pose proof (round_shift_near mx n 1 0 Hm Hn ltac:(lia) ltac:(lia)) as B.
  change (location_of 1 0) with loc_Exact in B. fold R in B. cbv zeta in B. lia.
Qed.

(** [int] of either shape of the rounded result. *)
Lemma int_of_float_rounded sx R E :
  2 ^ 52 <= R <= 2 ^ 53 ->
  int_of_float (if R <? 2 ^ 53 then S754_finite sx (Z.to_pos R) E
                else S754_finite sx (Z.to_pos (2 ^ 52)) (E + 1))
  = Ok (cond_Zopp sx (Z.shiftl R E)).
Proof.
  intros HR. destruct (Z.ltb_spec R (2 ^ 53)) as [Hlt|Hge]; unfold int_of_float.
  - rewrite Z2Pos.id by lia. reflexivity.
  - assert (R = 2 ^ 53) as -> by lia.
    rewrite Z2Pos.id by lia. do 2 f_equal.
    replace (E + 1) with (1 + E) by lia.
    rewrite <- Z.shiftl_shiftl by lia. reflexivity.
Qed.

Lemma Pos_iter_xO m d : Zpos (Pos.iter xO m d) = Zpos m * 2 ^ Zpos d.
Proof.
  rewrite Pos2Nat.inj_iter.
  rewrite <- (positive_nat_Z d). generalize (Pos.to_nat d) as k.
  induction k as [|k IH].
  - simpl. lia.
  - rewrite Nat2Z.inj_succ, Z.pow_succ_r by lia. simpl nat_rect.
    rewrite Pos2Z.inj_xO, IH. lia.
Qed.

(** [float(n)] is exact below [2 ^ 53]. *)
Lemma binary_round_small sx p :
  Zpos p < 2 ^ 53 ->
  let d := Zpos (digits2_pos p) in
  binary_round prec emax sx p 0 =
  S754_finite sx (Z.to_pos (Zpos p * 2 ^ (53 - d))) (d - 53).
Proof.
  intros Hp d.
  pose proof (digits2_pos_bounds p) as Hd. fold d in Hd.
  assert (Hd53 : d <= 53).
  { destruct (Z.le_gt_cases d 53) as [|Hgt]; [assumption|].
    assert (2 ^ 53 <= 2 ^ (d - 1)) by (apply Z.pow_le_mono_r; lia). lia. }
  assert (Hd1 : 1 <= d) by (subst d; lia).
  unfold binary_round.
  rewrite (fexp_normal (Zpos (digits2_pos p) + 0)) by (fold d; lia).
  fold d.
  assert (Hm : exists mz, shl_align p 0 (d + 0 - 53) = (mz, d - 53)
                     /\ Zpos mz = Zpos p * 2 ^ (53 - d)).
  { unfold shl_align. destruct (d + 0 - 53 - 0) as [|k|k] eqn:Ek; try lia.
    - exists p. split; [f_equal; lia|].
      replace (53 - d) with 0 by lia. lia.
    - exists (Pos.iter xO p k). split; [f_equal; lia|].
      rewrite Pos_iter_xO. f_equal. f_equal. lia. }
  destruct Hm as (mz & -> & Hmz).
  assert (Hdz : Zdigits2 (Zpos mz) = 53).
  { apply Zdigits2_unique; [lia|]. rewrite Hmz.
    assert (E1 : 2 ^ (53 - 1) = 2 ^ (d - 1) * 2 ^ (53 - d))
      by (rewrite <- Z.pow_add_r by lia; f_equal; lia).
    assert (E2 : 2 ^ 53 = 2 ^ d * 2 ^ (53 - d))
      by (rewrite <- Z.pow_add_r by lia; f_equal; lia).
    assert (0 < 2 ^ (53 - d)) by (apply Z.pow_pos_nonneg; lia).
    rewrite E1, E2. nia. }
  pose proof (binary_round_aux_normal sx (Zpos mz) (d - 53) loc_Exact
                ltac:(lia)) as B.
  cbv zeta in B. rewrite Hdz in B.
  specialize (B ltac:(lia) ltac:(lia) ltac:(lia)).
  destruct B as [HR ->].
  change (53 - 53) with 0. rewrite round_shift_0. simpl round_nearest_even.
  assert (Hlt : Zpos mz < 2 ^ 53).
  { pose proof (digits2_pos_bounds mz) as Bm. simpl Zdigits2 in Hdz.
    rewrite Hdz in Bm. lia. }
  destruct (Z.ltb_spec (Zpos mz) (2 ^ 53)); [|lia].
  rewrite Z.add_0_r, <- Hmz. reflexivity.
Qed.

Lemma float_of_int_small n :
  0 < Z.abs n < 2 ^ 53 ->
  let d := Zdigits2 n in
  float_of_int n =
  Ok (S754_finite (n <? 0) (Z.to_pos (Z.abs n * 2 ^ (53 - d))) (d - 53)).
Proof.
  intros Hn d. unfold float_of_int, binary_normalize.
  destruct n as [|p|p]; try (simpl in Hn; lia).
  - rewrite binary_round_small by (simpl in Hn; lia). reflexivity.
  - rewrite binary_round_small by (simpl in Hn; lia). reflexivity.
Qed.

Lemma shiftl_neg_div a e : e <= 0 -> Z.shiftl a e = a / 2 ^ (- e).
Proof.
  intros He. rewrite <- Z.shiftr_opp_r. apply Z.shiftr_div_pow2. lia.
Qed.

(** Line 21: true division by 100 followed by [int] is floor division. *)
Lemma int_true_div_100 a :
  0 <= a < 2 ^ 53 ->
  exists q, int_true_div a 100 = Ok q /\ int_of_float q = Ok (a / 100).
Proof.
  intros Ha. unfold int_true_div. simpl (100 =? 0).
  destruct (Z.eq_dec a 0) as [->|Hnz].
  { exists (S754_zero false). split; reflexivity. }
  destruct a as [|p|p]; try lia.
  unfold raw, SFdiv. simpl xorb.
  pose proof (digits2_pos_bounds p) as Hd.
  set (d := Zpos (digits2_pos p)) in *.
  assert (Hd53 : d <= 53).
  { destruct (Z.le_gt_cases d 53) as [|Hgt]; [assumption|].
    assert (2 ^ 53 <= 2 ^ (d - 1)) by (apply Z.pow_le_mono_r; lia). lia. }
  assert (Hd1 : 1 <= d) by (subst d; lia).
  unfold SFdiv_core_binary.
  change (Zdigits2 (Zpos p)) with d. change (Zdigits2 100) with 7.
  rewrite (fexp_normal (d + 0 - (7 + 0))) by lia.
  replace (Z.min (d + 0 - (7 + 0) - 53) (0 - 0)) with (d - 60) by lia.
  replace (0 - 0 - (d - 60)) with (60 - d) by lia.
  set (s := 60 - d) in *.
  assert (Hs : 7 <= s) by (subst s; lia).
  assert (Hsh : match s with
                | Z0 => Zpos p
                | Zpos _ => Z.shiftl (Zpos p) s
                | Zneg _ => 0
                end = Zpos p * 2 ^ s).
  { destruct s; try lia. apply Z.shiftl_mul_pow2. lia. }
  rewrite Hsh. clear Hsh.
  set (m' := Zpos p * 2 ^ s) in *.
  rewrite (surjective_pairing (Z.div_eucl m' 100)).
  change (fst (Z.div_eucl m' 100)) with (m' / 100).
  change (snd (Z.div_eucl m' 100)) with (m' mod 100).
  rewrite new_location_even_den by reflexivity.
  pose proof (Z.div_mod m' 100 ltac:(lia)) as Dm.
  pose proof (Z.mod_pos_bound m' 100 ltac:(lia)) as Br.
  set (q := m' / 100) in *. set (r := m' mod 100) in *.
  (* the quotient has 53 or 54 digits *)
  assert (E59 : 2 ^ 59 = 2 ^ (d - 1) * 2 ^ s)
    by (rewrite <- Z.pow_add_r by lia; f_equal; lia).
  assert (E60 : 2 ^ 60 = 2 ^ d * 2 ^ s)
    by (rewrite <- Z.pow_add_r by lia; f_equal; lia).
  assert (Ps : 0 < 2 ^ s) by (apply Z.pow_pos_nonneg; lia).
  assert (Hm' : 2 ^ 59 <= m' < 2 ^ 60) by (subst m'; rewrite E59, E60; nia).
  assert (Hq : 2 ^ 52 <= q < 2 ^ 54) by (change (2 ^ 59) with 576460752303423488 in Hm';
    change (2 ^ 60) with 1152921504606846976 in Hm'; lia).
  assert (Hn : Zdigits2 q = 53 \/ Zdigits2 q = 54).
  { destruct (Z.lt_ge_cases q (2 ^ 53)).
    - left. apply Zdigits2_unique; lia.
    - right. apply Zdigits2_unique; lia. }
  pose proof (binary_round_aux_normal false q (d - 60) (location_of 100 r)
                ltac:(lia)) as B.
  cbv zeta in B.
  set (n := Zdigits2 q - 53) in *.
  assert (Hn' : 0 <= n <= 1) by lia.
  specialize (B ltac:(lia) ltac:(lia) ltac:(lia)).
  destruct B as [HR ->].
  match goal with |- context [if ?c then ?x else ?y] =>
    exists (if c then x else y) end.
  split.
  { destruct (_ <? _); reflexivity. }
  rewrite int_of_float_rounded by assumption. simpl cond_Zopp. f_equal.
  pose proof (round_shift_near q n 100 r ltac:(lia) ltac:(lia) ltac:(lia) Br) as N.
  cbv zeta in N.
  set (R := round_shift q (location_of 100 r) n) in *.
  rewrite shiftl_neg_div by lia.
  set (g := - (d - 60 + n)).
  assert (Hg : 6 <= g) by (subst g; lia).
  assert (Es : 2 ^ s = 2 ^ g * 2 ^ n)
    by (rewrite <- Z.pow_add_r by lia; f_equal; lia).
  assert (Pn : 0 < 2 ^ n) by (apply Z.pow_pos_nonneg; lia).
  assert (G64 : 2 ^ 6 <= 2 ^ g) by (apply Z.pow_le_mono_r; lia).
  change (2 ^ 6) with 64 in G64.
  set (G := 2 ^ g) in *. set (Bn := 2 ^ n) in *.
  assert (N' : -50 <= 100 * R - Zpos p * G <= 50).
  { subst m'. rewrite Es in Dm. nia. }
  pose proof (Z.div_mod (Zpos p) 100 ltac:(lia)) as Da.
  pose proof (Z.mod_pos_bound (Zpos p) 100 ltac:(lia)) as Ba.
  set (K := Zpos p / 100) in *. set (rho := Zpos p mod 100) in *.
  assert (EKG : Zpos p * G = 100 * (K * G) + rho * G) by (rewrite Da; ring).
  assert (HrG : 0 <= rho * G <= 99 * G)
    by (split; [apply Z.mul_nonneg_nonneg|apply Z.mul_le_mono_nonneg_r]; lia).
  symmetry. apply Z.div_unique with (R - K * G).
  - left. lia.
  - lia.
Qed.

Lemma Zdigits2_bounds m : 0 < m -> 2 ^ (Zdigits2 m - 1) <= m < 2 ^ Zdigits2 m.
Proof. intros Hm. destruct m as [|p|p]; try lia. apply digits2_pos_bounds. Qed.

Lemma Zdigits2_le m k : 0 < m < 2 ^ k -> Zdigits2 m <= k.
Proof.
  intros Hm. pose proof (Zdigits2_bounds m ltac:(lia)) as B.
  destruct (Z.le_gt_cases (Zdigits2 m) k) as [|Hgt]; [assumption|].
  assert (2 ^ k <= 2 ^ (Zdigits2 m - 1)) by (apply Z.pow_le_mono_r; lia). lia.
Qed.

Lemma Zdigits2_pos m : 0 < m -> 1 <= Zdigits2 m.
Proof. intros Hm. destruct m as [|p|p]; simpl; lia. Qed.

(** The arithmetic behind [int(size * f)]: [R] is the rounded mantissa of
    the product, [G] the power of two [int] divides it by. *)
Lemma trunc_product_bounds W mp T err R Bn G Y N K rho :
  0 < W < 2 ^ 53 -> 0 < T -> 0 < Bn ->
  G * Bn = Y -> 2 ^ 21 * Bn <= Y -> 2 ^ 22 * T <= Y ->
  2 * (W * mp) - Bn <= 2 * (R * Bn) <= 2 * (W * mp) + Bn ->
  W * (100 * mp) = W * err + N * Y ->
  - (100 * T) <= err * 2 ^ 53 <= 100 * T ->
  N = 100 * K + rho -> 0 <= rho < 100 ->
  R < (K + 1) * G /\ (K - 1) * G <= R /\ (1 <= rho \/ 0 <= err -> K * G <= R).
Proof.
  intros HW PT PB EGB HB HT Near EM Herr DN Hrho.
  change (2 ^ 53) with 9007199254740992 in *.
  change (2 ^ 21) with 2097152 in *. change (2 ^ 22) with 4194304 in *.
  assert (We : - (100 * T) < W * err < 100 * T).
  { assert (- (100 * T) * 9007199254740992 < W * err * 9007199254740992
            < 100 * T * 9007199254740992) by nia.
    lia. }
  assert (We' : 0 <= err -> 0 <= W * err) by (intros; apply Z.mul_nonneg_nonneg; lia).
  assert (EKY : N * Y = 100 * (K * Y) + rho * Y) by (rewrite DN; ring).
  assert (RY : 0 <= rho * Y <= 99 * Y) by nia.
  assert (RY1 : 1 <= rho -> Y <= rho * Y) by (intros; nia).
  assert (E1 : (K + 1) * G * Bn = K * Y + Y) by (rewrite <- EGB; ring).
  assert (E2 : (K - 1) * G * Bn = K * Y - Y) by (rewrite <- EGB; ring).
  assert (E3 : K * G * Bn = K * Y) by (rewrite <- EGB; ring).
  assert (EW : W * (100 * mp) = 100 * (W * mp)) by ring.
  set (RB := R * Bn) in *. set (KY := K * Y) in *.
  set (Wm := W * mp) in *. set (We0 := W * err) in *.
  set (rY := rho * Y) in *. set (NY := N * Y) in *.
  split; [|split].
  - apply (Z.mul_lt_mono_pos_r Bn); [assumption|]. fold RB. rewrite E1. lia.
  - apply (Z.mul_le_mono_pos_r _ _ Bn); [assumption|]. fold RB. rewrite E2. lia.
  - intros Hc.
    assert (H2 : (2 * (K * G) - 1) * Bn <= 2 * R * Bn).
    { replace ((2 * (K * G) - 1) * Bn) with (2 * (K * G * Bn) - Bn) by ring.
      replace (2 * R * Bn) with (2 * RB) by (unfold RB; ring).
      rewrite E3.
      destruct Hc as [Hc|Hc].
      - specialize (RY1 Hc). lia.
      - specialize (We' Hc). lia. }
    apply Z.mul_le_mono_pos_r in H2; [lia|assumption].
Qed.

(** Line 14, the product and the truncation: [int(size * f)] for a factor
    [f = mp * 2 ^ ep] within [2 ^ -53] of [(100 - p) / 100]. *)
Lemma int_mul_float_trunc size mp ep p :
  0 < size < 2 ^ 31 -> 0 <= p < 100 ->
  2 ^ 52 <= Zpos mp < 2 ^ 53 -> -60 <= ep <= -52 ->
  Z.abs (100 * Zpos mp - (100 - p) * 2 ^ (- ep)) * 2 ^ 53 <= 100 * 2 ^ (- ep) ->
  exists g n,
    int_mul_float size (S754_finite false mp ep) = Ok g /\
    int_of_float g = Ok n /\
    size * (100 - p) / 100 - 1 <= n <= size * (100 - p) / 100 /\
    (n = size * (100 - p) / 100 - 1 ->
     (size * (100 - p)) mod 100 = 0 /\ 100 * Zpos mp < (100 - p) * 2 ^ (- ep)).
Proof.
  intros Hs Hp Hmp Hep Herr.
  unfold int_mul_float.
  rewrite float_of_int_small by lia.
  replace (size <? 0) with false by (symmetry; apply Z.ltb_ge; lia).
  rewrite Z.abs_eq by lia.
  pose proof (Zdigits2_le size 31 ltac:(lia)) as Hd31.
  pose proof (Zdigits2_pos size ltac:(lia)) as Hd1.
  pose proof (Zdigits2_bounds size ltac:(lia)) as Hd.
  set (d := Zdigits2 size) in *.
  set (A := 2 ^ (53 - d)).
  assert (PA : 2 ^ 22 <= A) by (apply Z.pow_le_mono_r; lia).
  assert (Hms : 2 ^ 52 <= size * A < 2 ^ 53).
  { assert (E1 : 2 ^ 52 = 2 ^ (d - 1) * A)
      by (unfold A; rewrite <- Z.pow_add_r by lia; f_equal; lia).
    assert (E2 : 2 ^ 53 = 2 ^ d * A)
      by (unfold A; rewrite <- Z.pow_add_r by lia; f_equal; lia).
    rewrite E1, E2. nia. }
  simpl bind. unfold fmul, SFmul. simpl xorb.
  set (ms := Z.to_pos (size * A)).
  assert (Ems : Zpos ms = size * A) by (unfold ms; rewrite Z2Pos.id; lia).
  set (M := Zpos (ms * mp)).
  assert (EM : M = size * A * Zpos mp) by (unfold M; rewrite Pos2Z.inj_mul, Ems; reflexivity).
  assert (HM : 2 ^ 104 <= M < 2 ^ 106).
  { change (2 ^ 104) with (2 ^ 52 * 2 ^ 52). change (2 ^ 106) with (2 ^ 53 * 2 ^ 53).
    rewrite EM. nia. }
  assert (Hn : Zdigits2 M = 105 \/ Zdigits2 M = 106).
  { destruct (Z.lt_ge_cases M (2 ^ 105)).
    - left. apply Zdigits2_unique; lia.
    - right. apply Zdigits2_unique; lia. }
  pose proof (binary_round_aux_normal false M (d - 53 + ep) loc_Exact ltac:(lia)) as B.
  cbv zeta in B.
  set (n := Zdigits2 M - 53) in *.
  assert (Hn' : 52 <= n <= 53) by lia.
  specialize (B ltac:(lia) ltac:(lia) ltac:(lia)).
  destruct B as [HR ->].
  pose proof (round_shift_exact_near M n ltac:(lia) ltac:(lia)) as Near.
  cbv zeta in Near.
  set (R := round_shift M loc_Exact n) in *.
  eexists. eexists. split; [reflexivity|].
  split; [apply int_of_float_rounded; assumption|].
  simpl cond_Zopp.
  rewrite shiftl_neg_div by lia.
  set (g := - (d - 53 + ep + n)).
  assert (Hg : 21 <= g) by (subst g; lia).
  set (T := 2 ^ (- ep)) in *.
  assert (EGB : 2 ^ g * 2 ^ n = A * T).
  { unfold A, T. rewrite <- !Z.pow_add_r by lia. f_equal. lia. }
  assert (PG : 2 ^ 21 <= 2 ^ g) by (apply Z.pow_le_mono_r; lia).
  assert (PB : 0 < 2 ^ n) by (apply Z.pow_pos_nonneg; lia).
  assert (PT : 0 < T) by (apply Z.pow_pos_nonneg; lia).
  set (G := 2 ^ g) in *. set (Bn := 2 ^ n) in *.
  pose proof (Z.div_mod (size * (100 - p)) 100 ltac:(lia)) as DN.
  pose proof (Z.mod_pos_bound (size * (100 - p)) 100 ltac:(lia)) as BN.
  set (K := size * (100 - p) / 100) in *.
  set (rho := (size * (100 - p)) mod 100) in *.
  set (err := 100 * Zpos mp - (100 - p) * T) in *.
  destruct (trunc_product_bounds (size * A) (Zpos mp) T err R Bn G (A * T)
              (size * (100 - p)) K rho) as (U & Lo & Lo'); try assumption; try lia.
  { rewrite <- EGB. apply Z.mul_le_mono_nonneg_r; lia. }
  { apply Z.mul_le_mono_nonneg_r; lia. }
  assert (PG' : 0 < G) by lia.
  assert (Hdiv : K - 1 <= R / G <= K).
  { split.
    - apply Z.div_le_lower_bound; lia.
    - assert (R / G < K + 1) by (apply Z.div_lt_upper_bound; lia). lia. }
  split; [exact Hdiv|].
  intros Heq.
  assert (Hnot : ~ (K * G <= R)).
  { intros Hc. assert (K <= R / G) by (apply Z.div_le_lower_bound; lia). lia. }
  split.
  - destruct (Z.eq_dec rho 0); [assumption|]. exfalso. apply Hnot, Lo'. lia.
  - destruct (Z.lt_ge_cases (100 * Zpos mp) ((100 - p) * T)); [assumption|].
    exfalso. apply Hnot, Lo'. right. unfold err. lia.
Qed.

(** The hundred factors [1 - p / 100], computed. *)
Lemma factor_table : forallb factor_ok (map Z.of_nat (seq 0 100)) = true.
Proof. vm_compute. reflexivity. Qed.

Lemma factor_ok_all p : 0 <= p < 100 -> factor_ok p = true.
Proof.
  intros Hp. pose proof factor_table as Ht.
  rewrite forallb_forall in Ht. apply Ht.
  apply in_map_iff. exists (Z.to_nat p). split; [lia|].
  apply in_seq. lia.
Qed.

Lemma inner_size_factor size p :
  inner_size size p =
  (f <- padding_factor p ;; g <- int_mul_float size f ;; int_of_float g)%py.
Proof.
  unfold inner_size, padding_factor.
  destruct (int_true_div p 100); reflexivity.
Qed.

(** Line 14 against the exact quotient [size * (100 - p) / 100]. *)
Lemma inner_size_near size p :
  0 < size < 2 ^ 31 -> 0 <= p < 100 ->
  exists n, inner_size size p = Ok n /\
    size * (100 - p) / 100 - 1 <= n <= size * (100 - p) / 100 /\
    (n = size * (100 - p) / 100 - 1 -> (size * (100 - p)) mod 100 = 0 /\ 0 < p).
Proof.
  intros Hs Hp. rewrite inner_size_factor.
  pose proof (factor_ok_all p Hp) as Hok. unfold factor_ok in Hok.
  destruct (padding_factor p) as [[| | |[] mp ep]|] eqn:Ef; try discriminate.
  rewrite !andb_true_iff in Hok. destruct Hok as ((((H1 & H2) & H3) & H4) & H5).
  destruct (int_mul_float_trunc size mp ep p Hs Hp ltac:(lia) ltac:(lia) ltac:(lia))
    as (g & n & Hg & Hn & Hrange & Hlow).
  exists n. simpl bind. rewrite Hg. simpl bind. split; [exact Hn|].
  split; [exact Hrange|].
  intros Heq. destruct (Hlow Heq) as [Hmod Hlt]. split; [exact Hmod|].
  destruct (Z.eq_dec p 0) as [->|]; [|lia]. exfalso.
  vm_compute in Ef. injection Ef as <- <-. vm_compute in Hlt. discriminate.
Qed.

(** * Pillow and the pipeline *)

Lemma spec_inner_size_eq size p : spec_inner_size size p = size * (100 - p) / 100.
Proof.
  unfold spec_inner_size.
  assert (E : (inject_Z size * (1 - inject_Z p / 100) == (size * (100 - p)) # 100)%Q).
  { unfold Qeq, Qmult, Qminus, Qplus, Qopp, Qdiv, Qinv, inject_Z. simpl. lia. }
  rewrite (Qfloor_comp _ _ E). reflexivity.
Qed.

Lemma spec_radius_eq n c : spec_radius n c = Z.max 1 (n * c / 100).
Proof.
  unfold spec_radius. f_equal.
  assert (E : (inject_Z n * (inject_Z c / 100) == (n * c) # 100)%Q).
  { unfold Qeq, Qmult, Qdiv, Qinv, inject_Z. simpl. lia. }
  rewrite (Qfloor_comp _ _ E). reflexivity.
Qed.

(** Settles the comparisons of a bounds test from the hypotheses. *)
Ltac decide_bounds :=
  repeat match goal with
  | |- context [?a <=? ?b] => destruct (Z.leb_spec a b); try lia
  | |- context [?a <? ?b] => destruct (Z.ltb_spec a b); try lia
  end.

Section Facts.
Context `{Backend}.

Lemma alpha_at_inside im x y :
  0 <= x < im_width im -> 0 <= y < im_height im ->
  alpha_at im x y = Some (im_data im A_band x y).
Proof.
  intros Hx Hy. unfold alpha_at, getpixel, inside. decide_bounds. reflexivity.
Qed.

Lemma byte_cases (P : Z -> bool) :
  forallb P byte_range = true -> forall a, 0 <= a <= 255 -> P a = true.
Proof.
  intros Hall a Ha. rewrite forallb_forall in Hall. apply Hall.
  apply in_map_iff. exists (Z.to_nat a). split; [lia|]. apply in_seq. lia.
Qed.

Lemma self_blend_table : forallb self_blend_ok byte_range = true.
Proof. vm_compute. reflexivity. Qed.

(** Pasting a sample under itself onto transparency: the result is
    [a * a / 255] rounded to nearest. *)
Lemma self_blend a :
  0 <= a <= 255 ->
  BLEND a 0 a = DIV255 (a * a) /\
  2 * Z.abs (255 * DIV255 (a * a) - a * a) <= 255 /\
  (a = 0 \/ a = 255 -> DIV255 (a * a) = a) /\
  (0 < a < 255 -> DIV255 (a * a) < a).
Proof.
  intros Ha. pose proof (byte_cases _ self_blend_table a Ha) as Hb.
  unfold self_blend_ok in Hb. rewrite !andb_true_iff in Hb.
  destruct Hb as [[H1 H2] H3].
  apply Z.eqb_eq in H1. apply Z.leb_le in H2.
  split; [exact H1|]. split; [exact H2|]. split.
  - intros Hc.
    destruct (Z.ltb_spec 0 a), (Z.ltb_spec a 255); cbn [andb] in H3;
      try apply Z.eqb_eq in H3; lia.
  - intros Hc.
    destruct (Z.ltb_spec 0 a), (Z.ltb_spec a 255); cbn [andb] in H3;
      try apply Z.ltb_lt in H3; lia.
Qed.

Lemma multiply_opaque a : 0 <= a <= 255 -> clip8 (Z.quot (a * 255) 255) = a.
Proof.
  intros Ha. rewrite Z.quot_mul by lia. unfold clip8.
  destruct (Z.leb_spec a 0); [lia|]. destruct (Z.leb_spec 255 a); lia.
Qed.

Lemma multiply_clear a : clip8 (Z.quot (a * 0) 255) = 0.
Proof. rewrite Z.mul_0_r. reflexivity. Qed.

Lemma clip8_byte v : 0 <= clip8 v <= 255.
Proof.
  unfold clip8. destruct (Z.leb_spec v 0); [lia|].
  destruct (Z.leb_spec 255 v); lia.
Qed.

Lemma convert_RGBA_mode im : im_mode (convert_RGBA im) = RGBA.
Proof. unfold convert_RGBA. destruct (im_mode im) eqn:E; [reflexivity|exact E]. Qed.

Lemma convert_RGBA_size im :
  im_width (convert_RGBA im) = im_width im /\
  im_height (convert_RGBA im) = im_height im.
Proof. unfold convert_RGBA. destruct (im_mode im); split; reflexivity. Qed.

Lemma convert_RGBA_well_formed im :
  well_formed im -> well_formed (convert_RGBA im).
Proof.
  intros Hw b x y. unfold convert_RGBA. destruct (im_mode im); [|apply Hw].
  simpl. destruct (b <? 3)%nat; [apply Hw|lia].
Qed.

Lemma resize_same img n :
  im_width img = n -> im_height img = n -> resize img n n = Ok img.
Proof.
  intros Hw Hh. unfold resize. rewrite Hw, Hh, Z.eqb_refl. reflexivity.
Qed.

Lemma resize_ok img n :
  1 <= n ->
  exists rz, resize img n n = Ok rz /\ im_mode rz = im_mode img /\
    im_width rz = n /\ im_height rz = n /\ (well_formed img -> well_formed rz).
Proof.
  intros Hn. unfold resize.
  destruct ((im_width img =? n) && (im_height img =? n)) eqn:E.
  - apply andb_prop in E as [E1 E2]. apply Z.eqb_eq in E1, E2.
    exists img. split; [reflexivity|]. split; [reflexivity|]. auto.
  - replace ((n <? 1) || (n <? 1)) with false
      by (symmetry; apply orb_false_intro; apply Z.ltb_ge; lia).
    eexists. split; [reflexivity|]. split; [reflexivity|].
    split; [reflexivity|]. split; [reflexivity|].
    intros _ b x y. apply lanczos_byte.
Qed.

Lemma resize_empty img n :
  1 <= im_width img -> n <= 0 -> resize img n n = Raise ValueError.
Proof.
  intros Hw Hn. unfold resize.
  replace (im_width img =? n) with false by (symmetry; apply Z.eqb_neq; lia).
  replace (n <? 1) with true by (symmetry; apply Z.ltb_lt; lia).
  reflexivity.
Qed.

(** Lines 21-22 compute [max(1, n * c / 100)] with floor division. *)
Lemma corner_radius_floor n c :
  0 <= n * c < 2 ^ 53 -> corner_radius n c = Ok (Z.max 1 (n * c / 100)).
Proof.
  intros Hnc. unfold corner_radius.
  destruct (int_true_div_100 (n * c) Hnc) as (q & -> & Hq).
  simpl bind. rewrite Hq. reflexivity.
Qed.

Lemma round_corners_ok rz n c :
  im_mode rz = RGBA -> im_width rz = n -> im_height rz = n ->
  1 <= n -> 0 <= n * c < 2 ^ 53 ->
  round_corners rz n c = Ok (masked rz n (Z.max 1 (n * c / 100))).
Proof.
  intros Hm Hw Hh Hn Hnc. unfold round_corners.
  rewrite corner_radius_floor by assumption. simpl bind.
  unfold rounded_mask, new.
  replace (n <? 0) with false by (symmetry; apply Z.ltb_ge; lia).
  simpl bind. unfold rounded_rectangle.
  replace (n - 1 <? 0) with false by (symmetry; apply Z.ltb_ge; lia).
  simpl bind. unfold multiply. simpl bind. unfold putalpha.
  simpl. rewrite Hm, Hw, Hh. simpl.
  rewrite !Z.min_id, !Z.eqb_refl. simpl.
  unfold masked. rewrite Hw, Hh. reflexivity.
Qed.

Lemma composite_ok src size n :
  im_mode src = RGBA -> 0 <= size ->
  composite src size n = Ok (placed src size ((size - n) / 2)).
Proof.
  intros Hm Hs. unfold composite, new.
  replace (size <? 0) with false by (symmetry; apply Z.ltb_ge; lia).
  simpl bind. unfold paste. simpl. rewrite Hm, !Z.eqb_refl. simpl.
  reflexivity.
Qed.

Lemma composite_negative src size n :
  size < 0 -> composite src size n = Raise ValueError.
Proof.
  intros Hs. unfold composite, new.
  replace (size <? 0) with true by (symmetry; apply Z.ltb_lt; lia).
  reflexivity.
Qed.

End Facts.

Section Pipeline.
Context `{Backend}.

Lemma inner_size_valid size p n :
  0 < size < 2 ^ 31 -> 0 <= p < 100 -> inner_size size p = Ok n ->
  0 <= n <= size.
Proof.
  intros Hs Hp Hn.
  destruct (inner_size_near size p Hs Hp) as (n' & Hn' & Hr & Hlow).
  rewrite Hn in Hn'. injection Hn' as <-.
  assert (0 <= size * (100 - p) / 100 <= size).
  { split; [apply Z.div_pos; nia|].
    apply Z.div_le_upper_bound; nia. }
  destruct (Z.eq_dec n (size * (100 - p) / 100 - 1)) as [E|]; [|lia].
  destruct (Hlow E) as [Hmod _].
  destruct (Z.eq_dec n (-1)); [|lia].
  assert (size * (100 - p) / 100 = 0) as Hz by lia.
  pose proof (Z.div_mod (size * (100 - p)) 100 ltac:(lia)). nia.
Qed.

Lemma masked_well_formed rz n r : well_formed rz -> well_formed (masked rz n r).
Proof.
  intros Hw b x y. unfold masked. simpl.
  destruct (b =? A_band)%nat; [apply clip8_byte|apply Hw].
Qed.

Lemma prepare_valid img n c :
  im_mode img = RGBA -> 1 <= n < 2 ^ 31 -> c <= 100 ->
  exists rz, resize img n n = Ok rz /\ im_mode rz = RGBA /\
    im_width rz = n /\ im_height rz = n /\ (well_formed img -> well_formed rz) /\
    prepare img n c = Ok (prepared rz n c).
Proof.
  intros Hm Hn Hc.
  destruct (resize_ok img n ltac:(lia)) as (rz & Hrz & Hmode & Hw & Hh & Hwf).
  exists rz. rewrite Hm in Hmode. repeat (split; [assumption|]).
  unfold prepare, prepared. rewrite Hrz. simpl bind.
  destruct (Z.ltb_spec 0 c); [|reflexivity].
  apply round_corners_ok; try assumption; try lia.
  change (2 ^ 31) with 2147483648 in Hn. change (2 ^ 53) with 9007199254740992.
  nia.
Qed.

Lemma prepared_shape rz n c :
  im_mode rz = RGBA -> im_width rz = n -> im_height rz = n ->
  im_mode (prepared rz n c) = RGBA /\ im_width (prepared rz n c) = n /\
  im_height (prepared rz n c) = n.
Proof.
  intros Hm Hw Hh. unfold prepared. destruct (0 <? c); simpl; auto.
Qed.

Lemma prepared_well_formed rz n c :
  well_formed rz -> well_formed (prepared rz n c).
Proof.
  intros Hw. unfold prepared. destruct (0 <? c); [|exact Hw].
  apply masked_well_formed, Hw.
Qed.

(** Lines 14-39 on a request that is accepted. *)
Lemma render_valid img size p c n :
  im_mode img = RGBA ->
  0 < size < 2 ^ 31 -> 0 <= p < 100 -> c <= 100 ->
  inner_size size p = Ok n -> 1 <= n ->
  exists rz, resize img n n = Ok rz /\ im_mode rz = RGBA /\
    im_width rz = n /\ im_height rz = n /\ (well_formed img -> well_formed rz) /\
    prepare img n c = Ok (prepared rz n c) /\
    render img size p c = Ok (placed (prepared rz n c) size ((size - n) / 2)).
Proof.
  intros Hm Hs Hp Hc Hn Hn1.
  pose proof (inner_size_valid size p n Hs Hp Hn) as Hle.
  destruct (prepare_valid img n c Hm ltac:(lia) Hc)
    as (rz & Hrz & Hmode & Hw & Hh & Hwf & Hprep).
  exists rz. repeat (split; [assumption|]).
  unfold render. rewrite Hn. simpl bind. rewrite Hprep. simpl bind.
  apply composite_ok; [|lia].
  apply prepared_shape; assumption.
Qed.

(** The centering offset leaves the pasted square inside the canvas. *)
Lemma offset_range size n :
  0 <= n <= size ->
  0 <= (size - n) / 2 /\ (size - n) / 2 + n <= size /\
  0 <= (size - n - (size - n) / 2) - (size - n) / 2 <= 1.
Proof.
  intros Hn. pose proof (Z.div_mod (size - n) 2 ltac:(lia)).
  pose proof (Z.mod_pos_bound (size - n) 2 ltac:(lia)). lia.
Qed.

Lemma placed_inside src size pos b x y :
  im_width src = im_height src ->
  0 <= pos -> pos + im_width src <= size ->
  0 <= x < im_width src -> 0 <= y < im_width src ->
  getpixel (placed src size pos) b (pos + x) (pos + y) =
  Some (BLEND (im_data src A_band x y) 0 (im_data src b x y)).
Proof.
  intros Hsq Hp Hfit Hx Hy. unfold getpixel, placed, inside. simpl.
  rewrite <- Hsq.
  replace (pos + x - pos) with x by lia. replace (pos + y - pos) with y by lia.
  decide_bounds. reflexivity.
Qed.

Lemma placed_outside src size pos b x y :
  inside src (x - pos) (y - pos) = false ->
  im_data (placed src size pos) b x y = 0.
Proof. intros Ho. unfold placed. simpl. rewrite Ho. reflexivity. Qed.

(** What [create_icon_with_padding] does once the source is opened. *)
Lemma create_icon_opened w input_path output_path size p c bs opened :
  files w !! input_path = Some bs -> decode bs = Some opened ->
  create_icon_with_padding input_path output_path size p c w =
  match render (convert_RGBA opened) size p c with
  | Raise e => (Raise e, w)
  | Ok out =>
      if decide (output_path ∈ readonly w) then (Raise OSError, w)
      else (Ok tt, World (<[output_path := png_encode out]> (files w))
                         (readonly w)
                         (stdout w ++ [created_line output_path size]))
  end.
Proof.
  intros Hf Hd. unfold create_icon_with_padding, io_bind, Image_open.
  rewrite Hf, Hd. unfold lift.
  destruct (render (convert_RGBA opened) size p c) as [out|e]; [|reflexivity].
  unfold save. destruct (decide (output_path ∈ readonly w)); reflexivity.
Qed.

Lemma create_icon_unreadable w input_path output_path size p c :
  (files w !! input_path = None \/
   exists bs, files w !! input_path = Some bs /\ decode bs = None) ->
  create_icon_with_padding input_path output_path size p c w = (Raise OSError, w).
Proof.
  intros [Hf|(bs & Hf & Hd)];
    unfold create_icon_with_padding, io_bind, Image_open; rewrite Hf;
    [reflexivity|]. rewrite Hd. reflexivity.
Qed.

End Pipeline.

Import Mask Agreement.

(** * The mask *)

(** Settles a membership test of the shape from the bounds at hand. *)
Ltac settle_shape :=
  unfold in_rect, in_disc;
  repeat match goal with
  | |- context [?a <=? ?b] => destruct (Z.leb_spec a b); try lia
  end;
  try reflexivity; try nia.

(** The corner pixels of the bounding box are outside the shape. *)
Lemma rounded_rect_corners n r x y :
  1 <= r -> 2 * r + 3 <= n ->
  x = 0 \/ x = n - 1 -> y = 0 \/ y = n - 1 ->
  rounded_rect 0 0 (n - 1) (n - 1) r x y = false.
Proof.
  intros Hr Hn Hx Hy. unfold rounded_rect.
  rewrite !orb_false_iff. destruct Hx as [->| ->], Hy as [->| ->];
    repeat split; settle_shape.
Qed.

(** The bands between the corner squares are inside it. *)
Lemma rounded_rect_bands n r x y :
  1 <= r -> 2 * r + 3 <= n -> 0 <= x < n -> 0 <= y < n ->
  r < x < n - 1 - r \/ r < y < n - 1 - r ->
  rounded_rect 0 0 (n - 1) (n - 1) r x y = true.
Proof.
  intros Hr Hn Hx Hy Hband. unfold rounded_rect.
  destruct (Z_lt_le_dec r x) as [Hx1|Hx1].
  - destruct (Z_lt_le_dec x (n - 1 - r)) as [Hx2|Hx2].
    + replace (in_rect (0 + r + 1) 0 (n - 1 - r - 1) (n - 1) x y) with true
        by (symmetry; settle_shape).
      reflexivity.
    + replace (in_rect (n - 1 - r) (0 + r + 1) (n - 1) (n - 1 - r - 1) x y)
        with true by (symmetry; settle_shape).
      rewrite !orb_true_r. reflexivity.
  - replace (in_rect 0 (0 + r + 1) (0 + r) (n - 1 - r - 1) x y) with true
      by (symmetry; settle_shape).
    rewrite !orb_true_r. reflexivity.
Qed.

Lemma rounded_rect_centre n r :
  1 <= r -> 2 * r + 3 <= n ->
  0 <= n / 2 < n /\ r < n / 2 < n - 1 - r.
Proof.
  intros Hr Hn. pose proof (Z.div_mod n 2 ltac:(lia)).
  pose proof (Z.mod_pos_bound n 2 ltac:(lia)). lia.
Qed.

(** * The claims *)

Section Claims.
Context `{Backend}.

(** C1. For a target size in [1, 2^31), an integer padding percent in
    [0, 100), a corner radius percent of at most 100 and a computed inner
    size of at least 1, whatever the source image decodes to, lines 14-39
    return an image that is RGBA and exactly [size] x [size], and the call
    saves that image at [output_path] and prints its line. *)
Theorem output_has_target_size (w : world) (input_path output_path : string)
    bs opened size p c n :
  files w !! input_path = Some bs -> decode bs = Some opened ->
  output_path ∉ readonly w ->
  0 < size < 2 ^ 31 -> 0 <= p < 100 -> c <= 100 ->
  inner_size size p = Ok n -> 1 <= n ->
  exists out,
    render (convert_RGBA opened) size p c = Ok out /\
    im_mode out = RGBA /\ im_width out = size /\ im_height out = size /\
    create_icon_with_padding input_path output_path size p c w =
      (Ok tt, World (<[output_path := png_encode out]> (files w)) (readonly w)
                    (stdout w ++ [created_line output_path size])).
Proof.
  intros Hf Hd Hro Hs Hp Hc Hn Hn1.
  destruct (render_valid (convert_RGBA opened) size p c n
              (convert_RGBA_mode opened) Hs Hp Hc Hn Hn1)
    as (rz & _ & _ & _ & _ & _ & _ & Hr).
  eexists. split; [exact Hr|]. repeat (split; [reflexivity|]).
  rewrite (create_icon_opened w input_path output_path size p c bs opened Hf Hd).
  rewrite Hr. destruct (decide (output_path ∈ readonly w)); [contradiction|].
  reflexivity.
Qed.

(** C2, as amended. Line 14 works in binary64: for a target size in
    [1, 2^31) and an integer padding percent [p] in [0, 100), [inner_size]
    is [floor(size * (1 - p / 100))], or one less than it, which needs
    [p > 0] and [size * (1 - p / 100)] to be an integer; with no padding it
    is [size] exactly. *)
Theorem inner_size_floor_or_one_below size p :
  0 < size < 2 ^ 31 -> 0 <= p < 100 ->
  exists n, inner_size size p = Ok n /\
    (n = spec_inner_size size p \/
     n = spec_inner_size size p - 1 /\ 0 < p /\ (size * (100 - p)) mod 100 = 0) /\
    (p = 0 -> n = size).
Proof.
  intros Hs Hp.
  destruct (inner_size_near size p Hs Hp) as (n & Hn & Hr & Hlow).
  exists n. split; [exact Hn|]. rewrite spec_inner_size_eq.
  assert (Hcase : n = size * (100 - p) / 100 \/
                  n = size * (100 - p) / 100 - 1 /\ 0 < p /\
                  (size * (100 - p)) mod 100 = 0).
  { destruct (Z.eq_dec n (size * (100 - p) / 100)) as [|Hne]; [left; assumption|].
    right. assert (E : n = size * (100 - p) / 100 - 1) by lia.
    destruct (Hlow E). auto. }
  split; [exact Hcase|].
  intros ->. destruct Hcase as [->|(_ & Hp0 & _)]; [|lia].
  rewrite Z.sub_0_r. apply Z.div_mul. lia.
Qed.



(** C5. The prepared image is pasted at [pos = floor((size - n) / 2)] on
    both axes: the margin before it is [pos], the margin after it is
    [size - (pos + n)], which is [pos] or [pos + 1]; inside the square the
    output is the paste of the prepared image, and every sample outside it
    is 0. *)
Theorem content_is_centered img size p c n :
  im_mode img = RGBA ->
  0 < size < 2 ^ 31 -> 0 <= p < 100 -> c <= 100 ->
  inner_size size p = Ok n -> 1 <= n ->
  exists src out,
    prepare img n c = Ok src /\ render img size p c = Ok out /\
    let pos := (size - n) / 2 in
    let far := size - (pos + n) in
    0 <= pos /\ 0 <= far /\ 0 <= far - pos <= 1 /\
    (forall b x y, 0 <= x < n -> 0 <= y < n ->
       getpixel out b (pos + x) (pos + y) =
       Some (BLEND (im_data src A_band x y) 0 (im_data src b x y))) /\
    (forall b x y, inside out x y = true ->
       ~ (pos <= x < pos + n /\ pos <= y < pos + n) ->
       getpixel out b x y = Some 0).
Proof.
  intros Hm Hs Hp Hc Hn Hn1.
  pose proof (inner_size_valid size p n Hs Hp Hn) as Hle.
  destruct (render_valid img size p c n Hm Hs Hp Hc Hn Hn1)
    as (rz & Hrz & Hmode & Hw & Hh & _ & Hprep & Hr).
  destruct (prepared_shape rz n c Hmode Hw Hh) as (Pm & Pw & Ph).
  exists (prepared rz n c), (placed (prepared rz n c) size ((size - n) / 2)).
  repeat (split; [assumption|]).
  intros pos far. destruct (offset_range size n Hle) as (Hp0 & Hp1 & Hp2).
  fold pos in Hp0, Hp1, Hp2.
  split; [exact Hp0|]. split; [unfold far; lia|]. split; [unfold far; lia|].
  split.
  - intros b x y Hx Hy. apply placed_inside; rewrite ?Pw, ?Ph; lia.
  - intros b x y Hin Hout. unfold getpixel. rewrite Hin. f_equal.
    apply placed_outside. unfold inside. rewrite Pw, Ph.
    apply andb_false_iff. rewrite !andb_false_iff, !Z.leb_gt, !Z.ltb_ge. lia.
Qed.

End Claims.

Section Claims2.
Context `{Backend}.

Lemma inner_size_of_zero p n : inner_size 0 p = Ok n -> n = 0.
Proof.
  unfold inner_size, int_sub_float, int_mul_float. intros E.
  destruct (int_true_div p 100) as [q|]; [|discriminate E].
  change (float_of_int 0) with (Ok (S754_zero false)) in E.
  destruct (float_of_int 1) as [one|]; [|discriminate E].
  cbn [bind] in E.
  destruct (fsub one q) as [s|s| |s m e]; simpl in E; try discriminate E;
    injection E as <-; reflexivity.
Qed.

Lemma prepare_ok img n c :
  im_mode img = RGBA -> 1 <= n -> (0 < c -> n * c < 2 ^ 53) ->
  exists src, prepare img n c = Ok src /\ im_mode src = RGBA.
Proof.
  intros Hm Hn Hc.
  destruct (resize_ok img n Hn) as (rz & Hrz & Hmode & Hw & Hh & _).
  rewrite Hm in Hmode.
  unfold prepare. rewrite Hrz. simpl bind.
  destruct (Z.ltb_spec 0 c).
  - rewrite round_corners_ok; try assumption; [|split; [nia|auto]].
    eexists. split; reflexivity.
  - exists rz. auto.
Qed.

(** C6. When the source opens and the target size is at most 0, or the
    computed inner size is at most 0, the call raises ValueError and leaves
    the world as it was: nothing is clamped and nothing is saved. (The
    radius of a positive inner size is assumed to fit a float.) *)
Theorem invalid_request_raises (w : world) (input_path output_path : string)
    bs opened size p c n :
  files w !! input_path = Some bs -> decode bs = Some opened ->
  inner_size size p = Ok n ->
  (0 < c -> 0 < n -> n * c < 2 ^ 53) ->
  size <= 0 \/ n <= 0 ->
  create_icon_with_padding input_path output_path size p c w
  = (Raise ValueError, w).
Proof.
  intros Hf Hd Hn Hc Hbad.
  rewrite (create_icon_opened w input_path output_path size p c bs opened Hf Hd).
  unfold render. rewrite Hn. simpl bind.
  destruct (Z.le_gt_cases n 0) as [Hn0|Hn1].
  - unfold prepare. rewrite resize_empty; [reflexivity| |exact Hn0].
    destruct (convert_RGBA_size opened) as [-> _].
    apply (decode_size bs opened Hd).
  - destruct Hbad as [Hs|]; [|lia].
    assert (size < 0).
    { destruct (Z.eq_dec size 0) as [->|]; [|lia].
      apply inner_size_of_zero in Hn. lia. }
    destruct (prepare_ok (convert_RGBA opened) n c (convert_RGBA_mode opened)
                ltac:(lia) ltac:(intros; apply Hc; lia)) as (src & -> & _).
    simpl bind. rewrite composite_negative by assumption. reflexivity.
Qed.

(** C7, as amended. The call reads the file at [input_path]; it leaves
    every file but the one at [output_path] as it was and never changes
    which paths are writable; when it raises it changes nothing at all, and
    when it returns it has saved the rendered image at [output_path] and
    printed one line. *)
Theorem effects_confined (w : world) (input_path output_path : string) size p c :
  let run := create_icon_with_padding input_path output_path size p c w in
  readonly (snd run) = readonly w /\
  (forall path, path <> output_path ->
     files (snd run) !! path = files w !! path) /\
  match fst run with
  | Raise _ => snd run = w
  | Ok _ =>
      exists bs opened out,
        files w !! input_path = Some bs /\ decode bs = Some opened /\
        render (convert_RGBA opened) size p c = Ok out /\
        files (snd run) = <[output_path := png_encode out]> (files w) /\
        stdout (snd run) = stdout w ++ [created_line output_path size]
  end.
Proof.
  intros run. subst run.
  destruct (files w !! input_path) as [bs|] eqn:Hf.
  2:{ rewrite create_icon_unreadable by (left; exact Hf). simpl. auto. }
  destruct (decode bs) as [opened|] eqn:Hd.
  2:{ rewrite create_icon_unreadable by (right; eauto). simpl. auto. }
  rewrite (create_icon_opened w input_path output_path size p c bs opened Hf Hd).
  destruct (render (convert_RGBA opened) size p c) as [out|e] eqn:Hr;
    [|simpl; auto].
  destruct (decide (output_path ∈ readonly w)); [simpl; auto|].
  simpl. split; [reflexivity|]. split.
  - intros path Hne. apply lookup_insert_ne. congruence.
  - exists bs, opened, out. auto.
Qed.

(** C8, as amended. With a corner radius percent of 0 no mask is built:
    the prepared image is the resized image itself, and every pixel of the
    inner region, its four corners included, has alpha [DIV255 (a * a)] in
    the output for its resized alpha [a], which is [a] when [a] is 0 or
    255. *)
Theorem unrounded_alpha img size p n :
  im_mode img = RGBA -> well_formed img ->
  0 < size < 2 ^ 31 -> 0 <= p < 100 ->
  inner_size size p = Ok n -> 1 <= n ->
  exists img_resized out,
    resize img n n = Ok img_resized /\
    prepare img n 0 = Ok img_resized /\
    render img size p 0 = Ok out /\
    let pos := (size - n) / 2 in
    forall x y, 0 <= x < n -> 0 <= y < n ->
      exists a, alpha_at img_resized x y = Some a /\
        alpha_at out (pos + x) (pos + y) = Some (DIV255 (a * a)) /\
        (a = 0 \/ a = 255 -> alpha_at out (pos + x) (pos + y) = Some a).
Proof.
  intros Hm Hwf Hs Hp Hn Hn1.
  pose proof (inner_size_valid size p n Hs Hp Hn) as Hle.
  destruct (render_valid img size p 0 n Hm Hs Hp ltac:(lia) Hn Hn1)
    as (rz & Hrz & Hmode & Hw & Hh & Hwf' & Hprep & Hr).
  change (prepared rz n 0) with rz in Hprep, Hr.
  exists rz, (placed rz size ((size - n) / 2)).
  repeat (split; [assumption|]).
  intros pos x y Hx Hy.
  destruct (offset_range size n Hle) as (Hp0 & Hp1 & _). fold pos in Hp0, Hp1.
  exists (im_data rz A_band x y).
  pose proof (Hwf' Hwf A_band x y) as Ha.
  destruct (self_blend _ Ha) as (Hb & _ & Hends & _).
  assert (Hout : alpha_at (placed rz size pos) (pos + x) (pos + y)
                 = Some (DIV255 (im_data rz A_band x y * im_data rz A_band x y))).
  { unfold alpha_at. rewrite placed_inside by lia. rewrite Hb. reflexivity. }
  fold pos. split; [|split].
  - apply alpha_at_inside; lia.
  - exact Hout.
  - intros He. rewrite Hout, (Hends He). reflexivity.
Qed.

(** C10. The prepared image is pasted under its own alpha: a pixel of
    alpha [a] ends with alpha [DIV255 (a * a)], the nearest integer to
    [a * a / 255]; 0 and 255 are kept, and every alpha strictly between them
    comes out strictly smaller. *)
Theorem self_mask_squares_alpha img size p c n :
  im_mode img = RGBA -> well_formed img ->
  0 < size < 2 ^ 31 -> 0 <= p < 100 -> c <= 100 ->
  inner_size size p = Ok n -> 1 <= n ->
  exists src out,
    prepare img n c = Ok src /\ render img size p c = Ok out /\
    let pos := (size - n) / 2 in
    forall x y, 0 <= x < n -> 0 <= y < n ->
      exists a, alpha_at src x y = Some a /\ 0 <= a <= 255 /\
        alpha_at out (pos + x) (pos + y) = Some (DIV255 (a * a)) /\
        2 * Z.abs (255 * DIV255 (a * a) - a * a) <= 255 /\
        (a = 0 \/ a = 255 -> DIV255 (a * a) = a) /\
        (0 < a < 255 -> DIV255 (a * a) < a).
Proof.
  intros Hm Hwf Hs Hp Hc Hn Hn1.
  pose proof (inner_size_valid size p n Hs Hp Hn) as Hle.
  destruct (render_valid img size p c n Hm Hs Hp Hc Hn Hn1)
    as (rz & Hrz & Hmode & Hw & Hh & Hwf' & Hprep & Hr).
  destruct (prepared_shape rz n c Hmode Hw Hh) as (Pm & Pw & Ph).
  exists (prepared rz n c), (placed (prepared rz n c) size ((size - n) / 2)).
  repeat (split; [assumption|]).
  intros pos x y Hx Hy.
  destruct (offset_range size n Hle) as (Hp0 & Hp1 & _). fold pos in Hp0, Hp1.
  exists (im_data (prepared rz n c) A_band x y).
  pose proof (prepared_well_formed rz n c (Hwf' Hwf) A_band x y) as Ha.
  destruct (self_blend _ Ha) as (Hb & Hnear & Hends & Hlt).
  fold pos. split; [|split; [exact Ha|split; [|auto]]].
  - apply alpha_at_inside; lia.
  - unfold alpha_at. rewrite placed_inside by (rewrite ?Pw, ?Ph; lia).
    rewrite Hb. reflexivity.
Qed.

End Claims2.

(** * Two calls on backends of their own *)

Section TwoCalls.
Variables B1 B2 : Backend.

(** The decoder, the resampler, the rasteriser and the encoder answer
    alike in both calls. *)
Hypothesis same_decode : forall bs, @decode B1 bs = @decode B2 bs.
Hypothesis same_lanczos : forall im w h b x y,
  0 <= x < w -> 0 <= y < h -> @lanczos B1 im w h b x y = @lanczos B2 im w h b x y.
Hypothesis same_rr_covers : forall x0 y0 x1 y1 r x y,
  @rr_covers B1 x0 y0 x1 y1 r x y = @rr_covers B2 x0 y0 x1 y1 r x y.
Hypothesis same_png_encode : forall a b,
  same_samples a b -> @png_encode B1 a = @png_encode B2 b.

Lemma same_samples_refl im : same_samples im im.
Proof. repeat split. Qed.

Lemma inside_bounds im x y :
  inside im x y = true -> 0 <= x < im_width im /\ 0 <= y < im_height im.
Proof.
  unfold inside. rewrite !andb_true_iff, !Z.leb_le, !Z.ltb_lt. lia.
Qed.

Lemma resize_agrees img n :
  same_outcome (resize (H := B1) img n n) (resize (H := B2) img n n).
Proof.
  unfold resize.
  destruct ((im_width img =? n) && (im_height img =? n));
    [apply same_samples_refl|].
  destruct ((n <? 1) || (n <? 1)); [reflexivity|].
  simpl. repeat (split; [reflexivity|]).
  intros b x y Hin. apply inside_bounds in Hin. simpl in Hin.
  apply same_lanczos; lia.
Qed.

Lemma round_corners_agrees rz1 rz2 n c :
  same_samples rz1 rz2 ->
  same_outcome (round_corners (H := B1) rz1 n c) (round_corners (H := B2) rz2 n c).
Proof.
  intros (Hm & Hw & Hh & Hd). unfold round_corners.
  destruct (corner_radius n c) as [radius|e]; [|reflexivity]. simpl bind.
  unfold rounded_mask, new.
  destruct ((n <? 0) || (n <? 0)); [reflexivity|]. simpl bind.
  unfold rounded_rectangle.
  destruct ((n - 1 <? 0) || (n - 1 <? 0)); [reflexivity|]. simpl bind.
  unfold multiply. simpl bind. unfold putalpha. cbn [im_mode im_width im_height].
  rewrite <- Hm, <- Hw, <- Hh.
  destruct (mode_eqb (im_mode rz1) RGBA && mode_eqb L L
            && (Z.min (im_width rz1) n =? im_width rz1)
            && (Z.min (im_height rz1) n =? im_height rz1)); [|reflexivity].
  simpl. repeat (split; [reflexivity|]).
  intros b x y Hin. cbn [im_data].
  assert (Hin1 : inside rz1 x y = true) by exact Hin.
  rewrite same_rr_covers, (Hd A_band x y Hin1).
  destruct (b =? A_band)%nat; [reflexivity|apply Hd, Hin1].
Qed.

Lemma prepare_agrees img n c :
  same_outcome (prepare (H := B1) img n c) (prepare (H := B2) img n c).
Proof.
  unfold prepare. pose proof (resize_agrees img n) as Hrz.
  destruct (resize (H := B1) img n n) as [rz1|e1],
           (resize (H := B2) img n n) as [rz2|e2]; simpl in Hrz; try contradiction.
  - simpl bind. destruct (0 <? c); [|exact Hrz].
    apply round_corners_agrees, Hrz.
  - exact Hrz.
Qed.

Lemma composite_agrees src1 src2 size n :
  same_samples src1 src2 ->
  same_outcome (composite src1 size n) (composite src2 size n).
Proof.
  intros (Hm & Hw & Hh & Hd). unfold composite, new.
  destruct ((size <? 0) || (size <? 0)); [reflexivity|]. simpl bind.
  unfold paste. cbn [im_mode im_width im_height]. rewrite <- Hm.
  rewrite !Z.eqb_refl.
  destruct (mode_eqb RGBA (im_mode src1)); [|reflexivity].
  simpl. repeat (split; [reflexivity|]).
  intros b x y _. cbn [im_data].
  assert (Hins : inside src2 (x - (size - n) / 2) (y - (size - n) / 2)
                 = inside src1 (x - (size - n) / 2) (y - (size - n) / 2)).
  { unfold inside. rewrite Hw, Hh. reflexivity. }
  rewrite Hins.
  destruct (inside src1 (x - (size - n) / 2) (y - (size - n) / 2)) eqn:Hin;
    [|reflexivity].
  rewrite !(Hd _ _ _ Hin). reflexivity.
Qed.

(** Lines 14-39 give the same image, or raise the same exception, in both
    calls. *)
Lemma render_agrees img size p c :
  same_outcome (render (H := B1) img size p c) (render (H := B2) img size p c).
Proof.
  unfold render. destruct (inner_size size p) as [n|e]; [|reflexivity].
  simpl bind. pose proof (prepare_agrees img n c) as Hprep.
  destruct (prepare (H := B1) img n c) as [src1|e1],
           (prepare (H := B2) img n c) as [src2|e2]; simpl in Hprep;
    try contradiction.
  - simpl bind. apply composite_agrees, Hprep.
  - exact Hprep.
Qed.


End TwoCalls.

Import Driver Runs Stores.

(** * Requests: which succeed, which fail, and how line 14 varies *)

Section Requests.
Context `{Backend}.

(** With 100% padding the factor is [0.0]. *)
Lemma inner_size_full_padding size :
  0 < size < 2 ^ 53 -> inner_size size 100 = Ok 0.
Proof.
  intros Hs. rewrite inner_size_factor.
  replace (padding_factor 100) with (Ok (S754_zero false) : result float)
    by (vm_compute; reflexivity).
  simpl bind. unfold int_mul_float.
  rewrite float_of_int_small by lia. reflexivity.
Qed.

(** The exact quotient of line 14 and its bounds. *)
Lemma exact_inner_bounds size p :
  0 < size -> 0 <= p < 100 ->
  100 * (size * (100 - p) / 100) <= size * (100 - p) /\
  size * (100 - p) < 100 * (size * (100 - p) / 100 + 1) /\
  0 <= size * (100 - p) / 100 <= size.
Proof.
  intros Hs Hp.
  pose proof (Z.div_mod (size * (100 - p)) 100 ltac:(lia)) as Hd.
  pose proof (Z.mod_pos_bound (size * (100 - p)) 100 ltac:(lia)) as Hm.
  assert (0 <= size * (100 - p)) by nia.
  assert (size * (100 - p) <= 100 * size) by nia.
  lia.
Qed.

Lemma inner_size_in_range size p :
  0 < size < 2 ^ 31 -> 0 <= p < 100 ->
  exists n, inner_size size p = Ok n /\ 0 <= n <= size /\
    size * (100 - p) / 100 - 1 <= n <= size * (100 - p) / 100 /\
    (n = size * (100 - p) / 100 - 1 -> (size * (100 - p)) mod 100 = 0 /\ 0 < p).
Proof.
  intros Hs Hp.
  destruct (inner_size_near size p Hs Hp) as (n & Hn & Hr & Hlow).
  exists n. split; [exact Hn|].
  split; [exact (inner_size_valid size p n Hs Hp Hn)|]. split; assumption.
Qed.

(** Lines 14-39 on a request whose exact inner size is at least 2. *)
Lemma render_accepted img size p c :
  im_mode img = RGBA ->
  0 < size < 2 ^ 31 -> 0 <= p < 100 -> c <= 100 -> 200 <= size * (100 - p) ->
  exists out, render img size p c = Ok out /\
    im_mode out = RGBA /\ im_width out = size /\ im_height out = size.
Proof.
  intros Hm Hs Hp Hc Hbig.
  destruct (inner_size_in_range size p Hs Hp) as (n & Hn & _ & Hr & _).
  assert (2 <= size * (100 - p) / 100) by (apply Z.div_le_lower_bound; lia).
  destruct (render_valid img size p c n Hm Hs Hp Hc Hn ltac:(lia))
    as (rz & _ & _ & _ & _ & _ & _ & Hrender).
  eexists. split; [exact Hrender|]. repeat split.
Qed.

(** A request whose exact inner size [size * (1 - p / 100)] is at least 2
    pixels, on a readable source: the call returns, having saved a
    [size] x [size] RGBA image and printed its line, unless the output path
    cannot be written; then it raises OSError after the rendering, and it
    has printed nothing. *)
Theorem request_outcome (w : world) (input_path output_path : string)
    bs opened size p c :
  files w !! input_path = Some bs -> decode bs = Some opened ->
  0 < size < 2 ^ 31 -> 0 <= p < 100 -> c <= 100 ->
  200 <= size * (100 - p) ->
  exists out,
    render (convert_RGBA opened) size p c = Ok out /\
    im_mode out = RGBA /\ im_width out = size /\ im_height out = size /\
    create_icon_with_padding input_path output_path size p c w =
      if decide (output_path ∈ readonly w) then (Raise OSError, w)
      else (Ok tt, World (<[output_path := png_encode out]> (files w))
                         (readonly w)
                         (stdout w ++ [created_line output_path size])).
Proof.
  intros Hf Hd Hs Hp Hc Hbig.
  destruct (render_accepted (convert_RGBA opened) size p c
              (convert_RGBA_mode opened) Hs Hp Hc Hbig)
    as (out & Hr & Hmode & Hw & Hh).
  exists out. repeat (split; [assumption|]).
  rewrite (create_icon_opened w input_path output_path size p c bs opened Hf Hd).
  rewrite Hr. reflexivity.
Qed.

(** A request whose exact inner size is below one pixel, 100% padding
    included, on a readable source: the resize of line 17 raises ValueError,
    whatever the corner percent and the output path, and nothing is written
    or printed. *)
Theorem request_below_one_pixel (w : world) (input_path output_path : string)
    bs opened size p c :
  files w !! input_path = Some bs -> decode bs = Some opened ->
  0 < size < 2 ^ 31 -> 0 <= p <= 100 -> size * (100 - p) < 100 ->
  inner_size size p = Ok 0 /\
  create_icon_with_padding input_path output_path size p c w
  = (Raise ValueError, w).
Proof.
  intros Hf Hd Hs Hp Hsmall.
  assert (Hn : inner_size size p = Ok 0).
  { destruct (Z.eq_dec p 100) as [->|Hne].
    - apply inner_size_full_padding.
      change (2 ^ 31) with 2147483648 in Hs.
      change (2 ^ 53) with 9007199254740992. lia.
    - destruct (inner_size_in_range size p Hs ltac:(lia)) as (n & Hn & H0 & Hr & _).
      assert (size * (100 - p) / 100 = 0) as E.
      { apply Z.div_small. nia. }
      rewrite E in Hr. replace n with 0 in Hn by lia. exact Hn. }
  split; [exact Hn|].
  rewrite (create_icon_opened w input_path output_path size p c bs opened Hf Hd).
  unfold render. rewrite Hn. simpl bind.
  unfold prepare. rewrite resize_empty; [reflexivity| |lia].
  destruct (convert_RGBA_size opened) as [-> _].
  apply (decode_size bs opened Hd).
Qed.

(** Line 14 never gives more than the exact value [size * (1 - p / 100)]
    and stays within two pixels of it; the inner size is never negative,
    never larger than the target, and smaller than it as soon as there is
    some padding. *)
Theorem inner_size_bounds size p :
  0 < size < 2 ^ 31 -> 0 <= p < 100 ->
  exists n, inner_size size p = Ok n /\
    0 <= n <= size /\
    100 * n <= size * (100 - p) < 100 * (n + 2) /\
    (0 < p -> n < size).
Proof.
  intros Hs Hp.
  destruct (inner_size_in_range size p Hs Hp) as (n & Hn & H0 & Hr & _).
  destruct (exact_inner_bounds size p ltac:(lia) Hp) as (E1 & E2 & E3).
  exists n. split; [exact Hn|]. split; [exact H0|].
  split; [lia|]. intros Hpos. nia.
Qed.

(** Line 14 is monotone in spite of the rounding: a larger target with no
    more padding never gives a smaller inner size. *)
Theorem inner_size_monotone size1 size2 p1 p2 :
  0 < size1 <= size2 -> size2 < 2 ^ 31 -> 0 <= p2 <= p1 -> p1 < 100 ->
  exists n1 n2, inner_size size1 p1 = Ok n1 /\ inner_size size2 p2 = Ok n2 /\
    n1 <= n2.
Proof.
  intros Hs1 Hs2 Hp2 Hp1.
  destruct (inner_size_in_range size1 p1 ltac:(lia) ltac:(lia))
    as (n1 & Hn1 & _ & Hr1 & _).
  destruct (inner_size_in_range size2 p2 ltac:(lia) ltac:(lia))
    as (n2 & Hn2 & _ & Hr2 & Hlow2).
  exists n1, n2. split; [exact Hn1|]. split; [exact Hn2|].
  assert (Hle : size1 * (100 - p1) <= size2 * (100 - p2)) by nia.
  assert (HF : size1 * (100 - p1) / 100 <= size2 * (100 - p2) / 100)
    by (apply Z.div_le_mono; lia).
  destruct (Z.eq_dec n2 (size2 * (100 - p2) / 100 - 1)) as [E|]; [|lia].
  destruct (Z.le_gt_cases n1 n2) as [|Hgt]; [assumption|exfalso].
  destruct (Hlow2 E) as [Hmod _].
  assert (EF : size1 * (100 - p1) / 100 = size2 * (100 - p2) / 100) by lia.
  destruct (exact_inner_bounds size1 p1 ltac:(lia) ltac:(lia)) as (A1 & _ & _).
  pose proof (Z.div_mod (size2 * (100 - p2)) 100 ltac:(lia)) as Hd.
  rewrite Hmod, Z.add_0_r in Hd.
  assert (Eprod : size1 * (100 - p1) = size2 * (100 - p2)) by lia.
  assert (size1 = size2) by nia. subst size2.
  assert (p1 = p2) by nia. subst p2.
  rewrite Hn1 in Hn2. injection Hn2 as <-. lia.
Qed.

End Requests.

(** * Samples: what line 39 does to the colours *)

Section Colours.
Context `{Backend}.

Lemma blend_table :
  forallb (fun a => forallb (blend_ok a) byte_range) byte_range = true.
Proof. vm_compute. reflexivity. Qed.

(** Pasting a sample [v] under the alpha [a] onto transparency: the
    result is [v * a / 255] rounded to nearest. *)
Lemma blend_sample a v :
  0 <= a <= 255 -> 0 <= v <= 255 ->
  BLEND a 0 v = DIV255 (v * a) /\
  2 * Z.abs (255 * DIV255 (v * a) - v * a) <= 255 /\
  DIV255 (v * a) <= v /\
  (a = 255 -> DIV255 (v * a) = v) /\ (a = 0 -> DIV255 (v * a) = 0).
Proof.
  intros Ha Hv.
  pose proof (byte_cases _ blend_table a Ha) as Hrow. cbv beta in Hrow.
  pose proof (byte_cases _ Hrow v Hv) as Hb.
  unfold blend_ok in Hb. rewrite !andb_true_iff in Hb.
  destruct Hb as ((((H1 & H2) & H3) & H4) & H5).
  apply Z.eqb_eq in H1. apply Z.leb_le in H2, H3.
  split; [exact H1|]. split; [exact H2|]. split; [exact H3|]. split.
  - intros ->. simpl in H4. apply Z.eqb_eq in H4. exact H4.
  - intros ->. simpl in H5. apply Z.eqb_eq in H5. exact H5.
Qed.

(** The paste of line 39 scales every band by the alpha, the three colours
    as well as the alpha itself: a sample [v] of a pixel of alpha [a] comes
    out as [v * a / 255] rounded to nearest, so never larger; it is kept
    where the pixel is opaque and it is 0 where the pixel is transparent. *)
Theorem paste_scales_samples_by_alpha img size p c n :
  im_mode img = RGBA -> well_formed img ->
  0 < size < 2 ^ 31 -> 0 <= p < 100 -> c <= 100 ->
  inner_size size p = Ok n -> 1 <= n ->
  exists src out,
    prepare img n c = Ok src /\ render img size p c = Ok out /\
    let pos := (size - n) / 2 in
    forall b x y, 0 <= x < n -> 0 <= y < n ->
      exists v a, getpixel src b x y = Some v /\ alpha_at src x y = Some a /\
        getpixel out b (pos + x) (pos + y) = Some (DIV255 (v * a)) /\
        2 * Z.abs (255 * DIV255 (v * a) - v * a) <= 255 /\
        DIV255 (v * a) <= v /\
        (a = 255 -> DIV255 (v * a) = v) /\ (a = 0 -> DIV255 (v * a) = 0).
Proof.
  intros Hm Hwf Hs Hp Hc Hn Hn1.
  pose proof (inner_size_valid size p n Hs Hp Hn) as Hle.
  destruct (render_valid img size p c n Hm Hs Hp Hc Hn Hn1)
    as (rz & Hrz & Hmode & Hw & Hh & Hwf' & Hprep & Hr).
  destruct (prepared_shape rz n c Hmode Hw Hh) as (Pm & Pw & Ph).
  exists (prepared rz n c), (placed (prepared rz n c) size ((size - n) / 2)).
  repeat (split; [assumption|]).
  intros pos b x y Hx Hy.
  destruct (offset_range size n Hle) as (Hp0 & Hp1 & _). fold pos in Hp0, Hp1.
  exists (im_data (prepared rz n c) b x y), (im_data (prepared rz n c) A_band x y).
  pose proof (prepared_well_formed rz n c (Hwf' Hwf)) as Hbytes.
  destruct (blend_sample _ _ (Hbytes A_band x y) (Hbytes b x y))
    as (Hb & Hnear & Hle' & Hopaque & Hclear).
  split; [|split; [|split; [|auto]]].
  - unfold getpixel, inside. rewrite Pw, Ph. decide_bounds. reflexivity.
  - apply alpha_at_inside; lia.
  - rewrite placed_inside by (rewrite ?Pw, ?Ph; lia). rewrite Hb. reflexivity.
Qed.

(** With no padding and no rounding, an opaque RGBA source that already
    has the target size is not resampled, and the output is the source,
    sample for sample. *)
Theorem opaque_source_reproduced img size :
  im_mode img = RGBA -> well_formed img ->
  im_width img = size -> im_height img = size -> 0 < size < 2 ^ 31 ->
  (forall x y, 0 <= x < size -> 0 <= y < size -> im_data img A_band x y = 255) ->
  exists out, render img size 0 0 = Ok out /\
    im_mode out = RGBA /\ im_width out = size /\ im_height out = size /\
    forall b x y, 0 <= x < size -> 0 <= y < size ->
      getpixel out b x y = getpixel img b x y.
Proof.
  intros Hm Hwf Hw Hh Hs Hop.
  destruct (inner_size_near size 0 Hs ltac:(lia)) as (n & Hn & Hr & Hlow).
  assert (n = size) as ->.
  { rewrite Z.sub_0_r, Z.div_mul in Hr, Hlow by lia.
    destruct (Z.eq_dec n (size - 1)) as [E|]; [|lia].
    destruct (Hlow E). lia. }
  exists (placed img size ((size - size) / 2)). split.
  { unfold render. rewrite Hn. simpl bind.
    unfold prepare. rewrite (resize_same img size Hw Hh). simpl bind.
    apply composite_ok; [exact Hm|lia]. }
  repeat (split; [reflexivity|]).
  intros b x y Hx Hy. rewrite Z.sub_diag. change (0 / 2) with 0.
  pose proof (placed_inside img size 0 b x y) as Hin.
  rewrite !Z.add_0_l in Hin. rewrite Hin by lia.
  rewrite (Hop x y Hx Hy).
  destruct (blend_sample 255 (im_data img b x y) ltac:(lia) (Hwf b x y))
    as (Hb & _ & _ & Hkeep & _).
  rewrite Hb, (Hkeep eq_refl).
  unfold getpixel, inside. rewrite Hw, Hh. decide_bounds. reflexivity.
Qed.

(** With rounded corners, a pixel of the inner region that the mask leaves
    out is cleared in all four bands, like the padding around it; a pixel
    that the mask covers and that is opaque after the resize goes through
    unchanged, colours and alpha. *)
Theorem rounded_corners_samples img size p c n :
  im_mode img = RGBA -> well_formed img ->
  0 < size < 2 ^ 31 -> 0 <= p < 100 -> 0 < c <= 100 ->
  inner_size size p = Ok n -> 1 <= n ->
  exists img_resized out,
    resize img n n = Ok img_resized /\ render img size p c = Ok out /\
    let pos := (size - n) / 2 in
    let radius := Z.max 1 (n * c / 100) in
    forall b x y, 0 <= x < n -> 0 <= y < n ->
      (rr_covers 0 0 (n - 1) (n - 1) radius x y = false ->
         getpixel out b (pos + x) (pos + y) = Some 0) /\
      (rr_covers 0 0 (n - 1) (n - 1) radius x y = true ->
         im_data img_resized A_band x y = 255 ->
         getpixel out b (pos + x) (pos + y) = Some (im_data img_resized b x y)).
Proof.
  intros Hm Hwf Hs Hp Hc Hn Hn1.
  pose proof (inner_size_valid size p n Hs Hp Hn) as Hle.
  destruct (render_valid img size p c n Hm Hs Hp ltac:(lia) Hn Hn1)
    as (rz & Hrz & Hmode & Hw & Hh & Hwf' & Hprep & Hr).
  exists rz, (placed (prepared rz n c) size ((size - n) / 2)).
  repeat (split; [assumption|]).
  intros pos radius b x y Hx Hy.
  destruct (offset_range size n Hle) as (Hp0 & Hp1 & _). fold pos in Hp0, Hp1.
  assert (Hprep_eq : prepared rz n c = masked rz n radius).
  { unfold prepared. destruct (Z.ltb_spec 0 c); [reflexivity|lia]. }
  rewrite Hprep_eq.
  rewrite placed_inside by (simpl; lia).
  pose proof (masked_well_formed rz n radius (Hwf' Hwf) b x y) as Hv.
  split; intros Hcov.
  - assert (Ea : im_data (masked rz n radius) A_band x y = 0).
    { unfold masked. simpl. rewrite Hcov. apply multiply_clear. }
    rewrite Ea.
    destruct (blend_sample 0 _ ltac:(lia) Hv) as (Hb & _ & _ & _ & Hclear).
    rewrite Hb, (Hclear eq_refl). reflexivity.
  - intros Hopaque.
    assert (Ea : im_data (masked rz n radius) A_band x y = 255).
    { unfold masked. simpl. rewrite Hcov, Hopaque. reflexivity. }
    rewrite Ea.
    destruct (blend_sample 255 _ ltac:(lia) Hv) as (Hb & _ & _ & Hkeep & _).
    rewrite Hb, (Hkeep eq_refl). f_equal.
    unfold masked. simpl. destruct (Nat.eqb_spec b A_band) as [->|]; [|reflexivity].
    rewrite Hcov, Hopaque. reflexivity.
Qed.

(** Nothing keeps the inner size below the target: when line 14 gives
    more than [size] (a negative padding percent), the offset of line 36 is
    negative, the canvas has no margin left, and every pixel of the output
    is the paste of the pixel of the prepared image [-pos] further right
    and down; what lies beyond the canvas is cut off. *)
Theorem oversized_inner_is_cropped img size p c n :
  im_mode img = RGBA -> 0 < size -> size < n < 2 ^ 31 -> c <= 100 ->
  inner_size size p = Ok n ->
  exists src out,
    prepare img n c = Ok src /\ render img size p c = Ok out /\
    im_width src = n /\ im_height src = n /\
    im_width out = size /\ im_height out = size /\
    let pos := (size - n) / 2 in
    pos < 0 /\
    forall b x y, 0 <= x < size -> 0 <= y < size ->
      0 <= x - pos < n /\ 0 <= y - pos < n /\
      getpixel out b x y =
      Some (BLEND (im_data src A_band (x - pos) (y - pos)) 0
                  (im_data src b (x - pos) (y - pos))).
Proof.
  intros Hm Hs Hn Hc Hi.
  destruct (prepare_valid img n c Hm ltac:(lia) Hc)
    as (rz & Hrz & Hmode & Hw & Hh & _ & Hprep).
  destruct (prepared_shape rz n c Hmode Hw Hh) as (Pm & Pw & Ph).
  exists (prepared rz n c), (placed (prepared rz n c) size ((size - n) / 2)).
  split; [exact Hprep|]. split.
  { unfold render. rewrite Hi. simpl bind. rewrite Hprep. simpl bind.
    apply composite_ok; [exact Pm|lia]. }
  repeat (split; [assumption || reflexivity|]).
  intros pos.
  assert (Hpos : pos < 0 /\ size <= pos + n).
  { unfold pos. pose proof (Z.div_mod (size - n) 2 ltac:(lia)).
    pose proof (Z.mod_pos_bound (size - n) 2 ltac:(lia)). lia. }
  split; [lia|]. intros b x y Hx Hy.
  split; [lia|]. split; [lia|].
  unfold getpixel, placed, inside. simpl. fold pos. rewrite Pw, Ph.
  decide_bounds. reflexivity.
Qed.

(** Running the same call again, with an output path other than the input
    path, succeeds again and leaves every file as the first run left it;
    only one more line is printed. *)
Theorem rerun_overwrites_same_bytes (w w1 : world)
    (input_path output_path : string) size p c :
  input_path <> output_path ->
  create_icon_with_padding input_path output_path size p c w = (Ok tt, w1) ->
  create_icon_with_padding input_path output_path size p c w1 =
    (Ok tt, World (files w1) (readonly w1)
                  (stdout w1 ++ [created_line output_path size])).
Proof.
  intros Hne Hrun.
  destruct (files w !! input_path) as [bs|] eqn:Hf.
  2:{ rewrite create_icon_unreadable in Hrun by (left; exact Hf). discriminate. }
  destruct (decode bs) as [opened|] eqn:Hd.
  2:{ rewrite create_icon_unreadable in Hrun by (right; eauto). discriminate. }
  rewrite (create_icon_opened w input_path output_path size p c bs opened Hf Hd)
    in Hrun.
  destruct (render (convert_RGBA opened) size p c) as [out|e] eqn:Hr;
    [|discriminate].
  destruct (decide (output_path ∈ readonly w)) as [|Hro]; [discriminate|].
  injection Hrun as <-.
  rewrite (create_icon_opened _ input_path output_path size p c bs opened).
  - rewrite Hr. cbn [files readonly stdout].
    destruct (decide (output_path ∈ readonly w)); [contradiction|].
    rewrite insert_insert_eq. reflexivity.
  - cbn [files]. rewrite lookup_insert_ne by congruence. exact Hf.
  - exact Hd.
Qed.

End Colours.

(** * The driver *)

Section DriverRuns.
Context `{Backend}.

Lemma for_each_app {A} (xs ys : list A) (body : A -> io unit) w :
  for_each (xs ++ ys) body w
  = (for_each xs body ;; for_each ys body)%io w.
Proof.
  revert w. induction xs as [|x xs IH]; intros w; [reflexivity|].
  simpl. unfold io_bind.
  destruct (body x w) as [[[]|e] w']; [rewrite IH; reflexivity|reflexivity].
Qed.

Lemma for_each_flat_map {A B} (xs : list A) (f : A -> list B)
    (body : A -> io unit) (inner : B -> io unit) :
  (forall x w, body x w = for_each (f x) inner w) ->
  forall w, for_each xs body w = for_each (flat_map f xs) inner w.
Proof.
  intros Hbody. induction xs as [|x xs IH]; intros w; [reflexivity|].
  simpl. rewrite for_each_app. unfold io_bind. rewrite Hbody.
  destruct (for_each (f x) inner w) as [[[]|e] w']; [apply IH|reflexivity].
Qed.

(** The loop of lines 55-62 is the sequence of its ten calls. *)
Lemma main_calls w : main w = (run_calls calls ;; print done_line)%io w.
Proof.
  unfold main, run_calls, calls. unfold io_bind at 1 3.
  rewrite (for_each_flat_map icon_sizes calls_of _
             (fun c => create_icon_with_padding input_icon (fst c) (snd c)
                         padding corner_radius_percent)); [reflexivity|].
  intros size w0. simpl. unfold io_bind.
  destruct (create_icon_with_padding _ _ size _ _ w0) as [[[]|e] w1];
    [|reflexivity].
  destruct (create_icon_with_padding _ _ (size * 2) _ _ w1) as [[[]|e] w2];
    reflexivity.
Qed.

(** The ten calls, as the loop makes them. *)
Lemma calls_listed :
  calls =
  [("MonkeyNote/Assets.xcassets/AppIcon.appiconset/icon_16x16.png"%string, 16);
   ("MonkeyNote/Assets.xcassets/AppIcon.appiconset/icon_16x16@2x.png"%string, 32);
   ("MonkeyNote/Assets.xcassets/AppIcon.appiconset/icon_32x32.png"%string, 32);
   ("MonkeyNote/Assets.xcassets/AppIcon.appiconset/icon_32x32@2x.png"%string, 64);
   ("MonkeyNote/Assets.xcassets/AppIcon.appiconset/icon_128x128.png"%string, 128);
   ("MonkeyNote/Assets.xcassets/AppIcon.appiconset/icon_128x128@2x.png"%string, 256);
   ("MonkeyNote/Assets.xcassets/AppIcon.appiconset/icon_256x256.png"%string, 256);
   ("MonkeyNote/Assets.xcassets/AppIcon.appiconset/icon_256x256@2x.png"%string, 512);
   ("MonkeyNote/Assets.xcassets/AppIcon.appiconset/icon_512x512.png"%string, 512);
   ("MonkeyNote/Assets.xcassets/AppIcon.appiconset/icon_512x512@2x.png"%string, 1024)].
Proof. vm_compute. reflexivity. Qed.

Lemma calls_paths_distinct : NoDup (input_icon :: map fst calls).
Proof.
  rewrite calls_listed. apply (bool_decide_unpack _). vm_compute. reflexivity.
Qed.

Lemma calls_sizes c : c ∈ calls -> 3 <= snd c < 2 ^ 31.
Proof.
  rewrite calls_listed. intros Hc.
  repeat (apply elem_of_cons in Hc as [->|Hc]; [simpl; lia|]).
  apply elem_of_nil in Hc. contradiction.
Qed.

(** Every call of the driver is rendered, whatever the source is. *)
Lemma calls_rendered opened c :
  c ∈ calls ->
  render (convert_RGBA opened) (snd c) padding corner_radius_percent
    = Ok (rendered opened (snd c)) /\
  im_mode (rendered opened (snd c)) = RGBA /\
  im_width (rendered opened (snd c)) = snd c /\
  im_height (rendered opened (snd c)) = snd c.
Proof.
  intros Hc. pose proof (calls_sizes c Hc) as Hs.
  destruct (render_accepted (convert_RGBA opened) (snd c) padding
              corner_radius_percent (convert_RGBA_mode opened))
    as (out & Hr & Hout); unfold padding, corner_radius_percent; try lia.
  unfold rendered. unfold padding, corner_radius_percent in Hr |- *.
  rewrite Hr. split; [reflexivity|exact Hout].
Qed.

Lemma lookup_write_all opened cs path : forall m,
  write_all opened cs m !! path = last_write opened path cs (m !! path).
Proof.
  induction cs as [|c cs IH]; intros m; [reflexivity|].
  unfold write_all, last_write in *. simpl. rewrite IH. f_equal.
  destruct (decide (fst c = path)) as [<-|Hne].
  - apply lookup_insert_eq.
  - apply lookup_insert_ne. exact Hne.
Qed.

Lemma last_write_default opened path cs : forall old,
  last_write opened path cs old =
  match last_write opened path cs None with
  | Some v => Some v
  | None => old
  end.
Proof.
  induction cs as [|c cs IH]; intros old; [reflexivity|].
  unfold last_write in *. simpl.
  destruct (decide (fst c = path)); [|apply IH].
  rewrite (IH (Some (png_encode (rendered opened (snd c))))).
  match goal with
  | |- context [foldl ?f None cs] => destruct (foldl f None cs)
  end; reflexivity.
Qed.

Lemma last_write_twice opened path cs old :
  last_write opened path cs (last_write opened path cs old)
  = last_write opened path cs old.
Proof.
  rewrite (last_write_default opened path cs (last_write _ _ _ old)).
  rewrite (last_write_default opened path cs old).
  destruct (last_write opened path cs None); reflexivity.
Qed.

Lemma last_write_other opened path cs old :
  path ∉ map fst cs -> last_write opened path cs old = old.
Proof.
  revert old. induction cs as [|c cs IH]; intros old Hnot; [reflexivity|].
  unfold last_write in *. simpl.
  rewrite fmap_cons, not_elem_of_cons in Hnot. destruct Hnot as [Hne Hnot].
  destruct (decide (fst c = path)); [congruence|]. apply IH, Hnot.
Qed.

Lemma last_write_own opened cs c old :
  NoDup (map fst cs) -> c ∈ cs ->
  last_write opened (fst c) cs old
  = Some (png_encode (rendered opened (snd c))).
Proof.
  revert old. induction cs as [|c0 cs IH]; intros old Hnd Hc.
  { apply elem_of_nil in Hc. contradiction. }
  rewrite fmap_cons in Hnd. apply NoDup_cons in Hnd as [Hnot Hnd].
  change (last_write opened (fst c) (c0 :: cs) old)
    with (last_write opened (fst c) cs
            (if decide (fst c0 = fst c)
             then Some (png_encode (rendered opened (snd c0))) else old)).
  apply elem_of_cons in Hc as [->|Hc].
  - rewrite last_write_other by exact Hnot.
    destruct (decide (fst c0 = fst c0)); [reflexivity|congruence].
  - apply IH; assumption.
Qed.

Lemma write_all_twice opened cs m :
  write_all opened cs (write_all opened cs m) = write_all opened cs m.
Proof.
  apply map_eq. intros path.
  rewrite !lookup_write_all. apply last_write_twice.
Qed.

(** A run of calls that are all rendered and can all be saved. *)
Lemma run_calls_ok bs opened cs : forall w,
  files w !! input_icon = Some bs -> decode bs = Some opened ->
  input_icon ∉ map fst cs ->
  (forall c, c ∈ cs ->
     (fst c ∉ readonly w) /\
     render (convert_RGBA opened) (snd c) padding corner_radius_percent
       = Ok (rendered opened (snd c))) ->
  run_calls cs w =
  (Ok tt, World (write_all opened cs (files w)) (readonly w)
                (stdout w ++ lines_of cs)).
Proof.
  induction cs as [|c cs IH]; intros w Hf Hd Hin Hall.
  { destruct w. unfold run_calls, lift. simpl. rewrite app_nil_r. reflexivity. }
  rewrite fmap_cons, not_elem_of_cons in Hin. destruct Hin as [Hne Hin].
  destruct (Hall c ltac:(left)) as [Hro Hr].
  unfold run_calls. simpl for_each. unfold io_bind.
  rewrite (create_icon_opened w input_icon (fst c) (snd c) padding
             corner_radius_percent bs opened Hf Hd).
  rewrite Hr. destruct (decide (fst c ∈ readonly w)); [contradiction|].
  fold (run_calls cs). rewrite IH; try assumption.
  - cbn [files readonly stdout]. rewrite <- app_assoc. reflexivity.
  - cbn [files]. rewrite lookup_insert_ne by congruence. exact Hf.
  - intros c' Hc'. cbn [readonly]. apply Hall. right. exact Hc'.
Qed.

(** What a run that returns tells about the store it started from. *)
Lemma run_calls_returned bs opened cs : forall w w1,
  files w !! input_icon = Some bs -> decode bs = Some opened ->
  input_icon ∉ map fst cs ->
  run_calls cs w = (Ok tt, w1) ->
  forall c, c ∈ cs ->
    (fst c ∉ readonly w) /\
    exists out, render (convert_RGBA opened) (snd c) padding
                  corner_radius_percent = Ok out.
Proof.
  induction cs as [|c0 cs IH]; intros w w1 Hf Hd Hin Hrun c Hc.
  { apply elem_of_nil in Hc. contradiction. }
  rewrite fmap_cons, not_elem_of_cons in Hin. destruct Hin as [Hne Hin].
  unfold run_calls in Hrun. simpl for_each in Hrun. unfold io_bind in Hrun.
  rewrite (create_icon_opened w input_icon (fst c0) (snd c0) padding
             corner_radius_percent bs opened Hf Hd) in Hrun.
  destruct (render (convert_RGBA opened) (snd c0) padding corner_radius_percent)
    as [out|e] eqn:Hr; [|discriminate].
  destruct (decide (fst c0 ∈ readonly w)) as [|Hro]; [discriminate|].
  apply elem_of_cons in Hc as [->|Hc]; [split; [exact Hro|eauto]|].
  fold (run_calls cs) in Hrun.
  refine (IH _ w1 _ Hd Hin Hrun c Hc).
  cbn [files]. rewrite lookup_insert_ne by congruence. exact Hf.
Qed.

(** A run that returns has read its source. *)
Lemma run_calls_readable c cs w w1 :
  run_calls (c :: cs) w = (Ok tt, w1) ->
  exists bs opened, files w !! input_icon = Some bs /\ decode bs = Some opened.
Proof.
  intros Hrun. unfold run_calls in Hrun. simpl for_each in Hrun.
  unfold io_bind in Hrun.
  destruct (files w !! input_icon) as [bs|] eqn:Hf.
  2:{ rewrite create_icon_unreadable in Hrun by (left; exact Hf). discriminate. }
  destruct (decode bs) as [opened|] eqn:Hd; [eauto|].
  rewrite create_icon_unreadable in Hrun by (right; eauto). discriminate.
Qed.

(** The driver on a readable source and writable output paths. *)
Lemma main_returns w bs opened :
  files w !! input_icon = Some bs -> decode bs = Some opened ->
  (forall c, c ∈ calls -> fst c ∉ readonly w) ->
  main w =
  (Ok tt, World (write_all opened calls (files w)) (readonly w)
                (stdout w ++ lines_of calls ++ [done_line])).
Proof.
  intros Hf Hd Hro. rewrite main_calls. unfold io_bind.
  pose proof calls_paths_distinct as Hnd. apply NoDup_cons in Hnd as [Hin _].
  rewrite (run_calls_ok bs opened calls w Hf Hd Hin).
  - unfold print. cbn [files readonly stdout]. rewrite <- app_assoc. reflexivity.
  - intros c Hc. split; [apply Hro, Hc|apply calls_rendered, Hc].
Qed.

(** On a readable source, and with every output path writable, the driver
    returns: its ten calls have each saved an RGBA image of the size they
    were given, the one of a [@2x] path being twice as large as its name
    says; the ten lines of the calls and the closing line have been
    printed, in this order; the source and every other file are as they
    were. *)
Theorem main_generates_icons w bs opened :
  files w !! input_icon = Some bs -> decode bs = Some opened ->
  (forall c, c ∈ calls -> fst c ∉ readonly w) ->
  exists w', main w = (Ok tt, w') /\
    readonly w' = readonly w /\
    stdout w' = stdout w ++ lines_of calls ++ [done_line] /\
    (forall size, size ∈ icon_sizes ->
       (output_path_1x size, size) ∈ calls /\
       (output_path_2x size, size * 2) ∈ calls) /\
    (forall c, c ∈ calls ->
       exists out,
         render (convert_RGBA opened) (snd c) padding corner_radius_percent
           = Ok out /\
         im_mode out = RGBA /\ im_width out = snd c /\ im_height out = snd c /\
         files w' !! fst c = Some (png_encode out)) /\
    files w' !! input_icon = Some bs /\
    (forall path, path ∉ map fst calls -> files w' !! path = files w !! path).
Proof.
  intros Hf Hd Hro. eexists. split; [apply (main_returns w bs opened Hf Hd Hro)|].
  cbn [files readonly stdout].
  pose proof calls_paths_distinct as Hnd. apply NoDup_cons in Hnd as [Hin Hnd].
  split; [reflexivity|]. split; [reflexivity|]. split; [|split; [|split]].
  - intros size Hsize. unfold calls.
    split; apply list_elem_of_In, in_flat_map; exists size;
      (split; [apply list_elem_of_In, Hsize|]); simpl; auto.
  - intros c Hc. destruct (calls_rendered opened c Hc) as (Hr & Hm & Hw & Hh).
    exists (rendered opened (snd c)). repeat (split; [assumption|]).
    rewrite lookup_write_all. apply last_write_own; assumption.
  - rewrite lookup_write_all, last_write_other by exact Hin. exact Hf.
  - intros path Hpath. rewrite lookup_write_all. apply last_write_other, Hpath.
Qed.

(** Without a readable source the driver stops at its first call with
    OSError: no icon is written and nothing is printed. *)
Theorem main_needs_source w :
  files w !! input_icon = None \/
  (exists bs, files w !! input_icon = Some bs /\ decode bs = None) ->
  main w = (Raise OSError, w).
Proof.
  intros Hbad. unfold main, icon_sizes. cbn [for_each]. unfold io_bind.
  rewrite create_icon_unreadable by exact Hbad. reflexivity.
Qed.

(** The driver does not undo anything: when the output path of its call
    number [k] cannot be written, it raises OSError there, the icons of the
    calls before it stay written and their lines printed, the later calls
    are not made and the closing line is not printed. *)
Theorem main_stops_at_first_failure w bs opened (k : nat) failing :
  files w !! input_icon = Some bs -> decode bs = Some opened ->
  calls !! k = Some failing -> fst failing ∈ readonly w ->
  (forall c, c ∈ take k calls -> fst c ∉ readonly w) ->
  exists w', main w = (Raise OSError, w') /\
    readonly w' = readonly w /\
    stdout w' = stdout w ++ lines_of (take k calls) /\
    (forall c, c ∈ take k calls ->
       files w' !! fst c = Some (png_encode (rendered opened (snd c))) /\
       render (convert_RGBA opened) (snd c) padding corner_radius_percent
         = Ok (rendered opened (snd c))) /\
    (forall path, path ∉ map fst (take k calls) ->
       files w' !! path = files w !! path).
Proof.
  intros Hf Hd Hk Hro Hbefore.
  pose proof calls_paths_distinct as Hnd. apply NoDup_cons in Hnd as [Hin Hnd].
  assert (Hsplit : calls = take k calls ++ failing :: drop (S k) calls).
  { rewrite <- (take_drop_middle calls k failing Hk) at 1. reflexivity. }
  assert (Hsub : forall c, c ∈ take k calls -> c ∈ calls).
  { intros c Hc. rewrite Hsplit. apply elem_of_app. left. exact Hc. }
  assert (Hin' : input_icon ∉ map fst (take k calls)).
  { intros Hx. apply Hin. apply list_elem_of_fmap in Hx as (c & -> & Hc).
    apply list_elem_of_fmap. exists c. split; [reflexivity|apply Hsub, Hc]. }
  assert (Hnd' : NoDup (map fst (take k calls))).
  { rewrite Hsplit, fmap_app in Hnd. apply NoDup_app in Hnd as [Hnd _]. exact Hnd. }
  eexists. split.
  { rewrite main_calls. unfold io_bind. rewrite Hsplit at 1.
    unfold run_calls. rewrite for_each_app. unfold io_bind.
    fold (run_calls (take k calls)).
    rewrite (run_calls_ok bs opened (take k calls) w Hf Hd Hin').
    2:{ intros c Hc. split; [apply Hbefore, Hc|apply calls_rendered, Hsub, Hc]. }
    simpl for_each. unfold io_bind.
    rewrite (create_icon_opened _ input_icon (fst failing) (snd failing) padding
               corner_radius_percent bs opened).
    - destruct (calls_rendered opened failing) as (-> & _).
      { apply list_elem_of_lookup. eauto. }
      cbn [readonly]. destruct (decide (fst failing ∈ readonly w)); [|contradiction].
      reflexivity.
    - cbn [files]. rewrite lookup_write_all, last_write_other by exact Hin'.
      exact Hf.
    - exact Hd. }
  cbn [files readonly stdout].
  split; [reflexivity|]. split; [reflexivity|]. split.
  - intros c Hc. split; [|apply calls_rendered, Hsub, Hc].
    rewrite lookup_write_all. apply last_write_own; assumption.
  - intros path Hpath. rewrite lookup_write_all. apply last_write_other, Hpath.
Qed.

(** Once the driver has returned, running it again returns again and
    leaves every file as it is: each icon is overwritten with the same
    bytes, and the eleven lines are printed once more. *)
Theorem main_rerun_keeps_files w w1 :
  main w = (Ok tt, w1) ->
  exists w2, main w1 = (Ok tt, w2) /\
    files w2 = files w1 /\ readonly w2 = readonly w1 /\
    stdout w2 = stdout w1 ++ lines_of calls ++ [done_line].
Proof.
  intros Hrun.
  pose proof calls_paths_distinct as Hnd. apply NoDup_cons in Hnd as [Hin Hnd].
  pose proof Hrun as Hrun'. rewrite main_calls in Hrun'. unfold io_bind in Hrun'.
  destruct (run_calls calls w) as [[[]|e] w'] eqn:Hcalls; [|discriminate].
  clear Hrun'.
  assert (Hsrc : exists bs opened,
             files w !! input_icon = Some bs /\ decode bs = Some opened).
  { pose proof Hcalls as Hfirst. rewrite calls_listed in Hfirst.
    exact (run_calls_readable _ _ w w' Hfirst). }
  destruct Hsrc as (bs & opened & Hf & Hd).
  assert (Hro : forall c, c ∈ calls -> fst c ∉ readonly w).
  { intros c Hc.
    apply (run_calls_returned bs opened calls w w' Hf Hd Hin Hcalls c Hc). }
  rewrite (main_returns w bs opened Hf Hd Hro) in Hrun. injection Hrun as <-.
  assert (Hf1 : write_all opened calls (files w) !! input_icon = Some bs).
  { rewrite lookup_write_all, last_write_other by exact Hin. exact Hf. }
  eexists. split; [exact (main_returns (World _ _ _) bs opened Hf1 Hd Hro)|].
  cbn [files readonly stdout]. split; [apply write_all_twice|].
  split; reflexivity.
Qed.

End DriverRuns.

(** * Examples on the reference backend *)

Import Reference.

Lemma flat_square_well_formed n a : 0 <= a <= 255 -> well_formed (flat_square n a).
Proof. intros Ha b x y. exact Ha. Qed.

Lemma square_le a r : 0 <= a <= r -> a * a <= r * r.
Proof. intros Ha. apply Z.mul_le_mono_nonneg; lia. Qed.

Lemma in_disc_axis cx cy r x y :
  0 <= r -> (x = cx /\ Z.abs (y - cy) <= r) \/ (y = cy /\ Z.abs (x - cx) <= r) ->
  in_disc cx cy r x y = true.
Proof.
  intros Hr Hc. unfold in_disc. apply Z.leb_le.
  destruct Hc as [[-> Hy]|[-> Hx]].
  - rewrite Z.sub_diag, Z.mul_0_l, Z.add_0_l.
    rewrite <- Z.abs_square. apply square_le. lia.
  - rewrite Z.sub_diag, Z.mul_0_l, Z.add_0_r.
    rewrite <- Z.abs_square. apply square_le. lia.
Qed.

(** When the corners are not joined, the reference rasteriser draws the
    shape of [rounded_rect]. *)
Lemma disc_corners_rounded_rect x0 y0 x1 y1 r x y :
  0 <= r -> 2 * r < x1 - x0 - 1 -> 2 * r < y1 - y0 - 1 ->
  disc_corners x0 y0 x1 y1 r x y = rounded_rect x0 y0 x1 y1 r x y.
Proof.
  intros Hr Hx Hy. unfold disc_corners, rounded_rect, clamp, in_rect.
  fold (in_disc (Z.max (x0 + r) (Z.min (x1 - r) x))
                (Z.max (y0 + r) (Z.min (y1 - r) y)) r x y).
  destruct (Z_lt_le_dec x x0); [decide_bounds; reflexivity|].
  destruct (Z_lt_le_dec x1 x); [decide_bounds; reflexivity|].
  destruct (Z_lt_le_dec y y0); [decide_bounds; reflexivity|].
  destruct (Z_lt_le_dec y1 y); [decide_bounds; reflexivity|].
  assert (Ecx : Z.max (x0 + r) (Z.min (x1 - r) x) =
                if x <=? x0 + r then x0 + r else if x1 - r <=? x then x1 - r else x).
  { decide_bounds; lia. }
  assert (Ecy : Z.max (y0 + r) (Z.min (y1 - r) y) =
                if y <=? y0 + r then y0 + r else if y1 - r <=? y then y1 - r else y).
  { decide_bounds; lia. }
  rewrite Ecx, Ecy. clear Ecx Ecy.
  destruct (Z.leb_spec x (x0 + r)), (Z.leb_spec y (y0 + r));
    try destruct (Z.leb_spec (x1 - r) x); try destruct (Z.leb_spec (y1 - r) y);
    try (rewrite in_disc_axis by (try lia; (left; split; [reflexivity|lia])
                                   || (right; split; [reflexivity|lia])));
    decide_bounds; simpl; rewrite ?andb_false_r, ?orb_false_r, ?orb_true_r;
    try reflexivity.
Qed.


(** C2 fails as stated: at size 50 and 34% padding the script computes 32,
    the exact formula gives 33. *)
Lemma inner_size_below_floor :
  inner_size 50 34 = Ok 32 /\ spec_inner_size 50 34 = 33.
Proof. split; vm_compute; reflexivity. Qed.



(** C7 fails as stated: the call fails when the store has no source file,
    and on a store that has it, it creates the output file. *)
Lemma renderer_reads_and_writes_files :
  create_icon_with_padding "doc/icon.png" "icon_2x2.png" 2 0 0 (World ∅ ∅ [])
    = (Raise OSError, World ∅ ∅ []) /\
  fst (create_icon_with_padding "doc/icon.png" "icon_2x2.png" 2 0 0 sample_world)
    = Ok tt /\
  files sample_world !! "icon_2x2.png"%string = None /\
  is_Some (files (snd (create_icon_with_padding "doc/icon.png" "icon_2x2.png"
                         2 0 0 sample_world)) !! "icon_2x2.png"%string).
Proof.
  split; [reflexivity|]. split; [vm_compute; reflexivity|].
  split; [vm_compute; reflexivity|].
  eexists; vm_compute; reflexivity.
Qed.

(** C8 fails as stated: without rounding, the four corners of a source of
    alpha 128 have alpha 64 in the output. *)
Lemma unrounded_corner_alpha_not_retained :
  exists out,
    render (flat_square 4 128) 4 0 0 = Ok out /\
    alpha_at (flat_square 4 128) 0 0 = Some 128 /\
    alpha_at out 0 0 = Some 64 /\ alpha_at out 3 0 = Some 64 /\
    alpha_at out 0 3 = Some 64 /\ alpha_at out 3 3 = Some 64.
Proof.
  exists (placed (flat_square 4 128) 4 0). split; [reflexivity|].
  repeat split; vm_compute; reflexivity.
Qed.

Lemma output_has_target_size_witness :
  exists out,
    render (convert_RGBA opened_icon) 256 15 20 = Ok out /\
    im_mode out = RGBA /\ im_width out = 256 /\ im_height out = 256 /\
    create_icon_with_padding "doc/icon.png" "icon_256x256.png" 256 15 20
      sample_world =
      (Ok tt, World (<["icon_256x256.png"%string := png_encode out]>
                       (files sample_world)) (readonly sample_world)
                    (stdout sample_world
                     ++ [created_line "icon_256x256.png" 256])).
Proof.
  apply (output_has_target_size sample_world "doc/icon.png" "icon_256x256.png"
           icon_bytes opened_icon 256 15 20 217).
  - vm_compute. reflexivity.
  - vm_compute. reflexivity.
  - apply not_elem_of_empty.
  - split; reflexivity.
  - lia.
  - lia.
  - vm_compute. reflexivity.
  - lia.
Defined.

Lemma inner_size_floor_or_one_below_witness :
  exists n, inner_size 256 15 = Ok n /\
    (n = spec_inner_size 256 15 \/
     n = spec_inner_size 256 15 - 1 /\ 0 < 15 /\ (256 * (100 - 15)) mod 100 = 0) /\
    (15 = 0 -> n = 256).
Proof.
  apply (inner_size_floor_or_one_below 256 15); [split; reflexivity|lia].
Defined.



Lemma content_is_centered_witness :
  exists src out,
    prepare (flat_square 217 255) 217 20 = Ok src /\
    render (flat_square 217 255) 256 15 20 = Ok out /\
    0 <= (256 - 217) / 2 /\ 0 <= 256 - ((256 - 217) / 2 + 217) /\
    0 <= 256 - ((256 - 217) / 2 + 217) - (256 - 217) / 2 <= 1 /\
    (forall b x y, 0 <= x < 217 -> 0 <= y < 217 ->
       getpixel out b ((256 - 217) / 2 + x) ((256 - 217) / 2 + y) =
       Some (BLEND (im_data src A_band x y) 0 (im_data src b x y))) /\
    (forall b x y, inside out x y = true ->
       ~ ((256 - 217) / 2 <= x < (256 - 217) / 2 + 217 /\
          (256 - 217) / 2 <= y < (256 - 217) / 2 + 217) ->
       getpixel out b x y = Some 0).
Proof.
  apply (content_is_centered (flat_square 217 255) 256 15 20 217).
  - reflexivity.
  - split; reflexivity.
  - lia.
  - lia.
  - vm_compute. reflexivity.
  - lia.
Defined.

Lemma invalid_request_raises_witness :
  create_icon_with_padding "doc/icon.png" "icon_10x10.png" 10 100 20 sample_world
  = (Raise ValueError, sample_world).
Proof.
  apply (invalid_request_raises sample_world "doc/icon.png" "icon_10x10.png"
           icon_bytes opened_icon 10 100 20 0).
  - vm_compute. reflexivity.
  - vm_compute. reflexivity.
  - vm_compute. reflexivity.
  - lia.
  - right. lia.
Defined.

Lemma unrounded_alpha_witness :
  exists img_resized out,
    resize (flat_square 4 255) 4 4 = Ok img_resized /\
    prepare (flat_square 4 255) 4 0 = Ok img_resized /\
    render (flat_square 4 255) 4 0 0 = Ok out /\
    forall x y, 0 <= x < 4 -> 0 <= y < 4 ->
      exists a, alpha_at img_resized x y = Some a /\
        alpha_at out ((4 - 4) / 2 + x) ((4 - 4) / 2 + y) = Some (DIV255 (a * a)) /\
        (a = 0 \/ a = 255 ->
         alpha_at out ((4 - 4) / 2 + x) ((4 - 4) / 2 + y) = Some a).
Proof.
  apply (unrounded_alpha (flat_square 4 255) 4 0 4).
  - reflexivity.
  - apply flat_square_well_formed. lia.
  - split; reflexivity.
  - lia.
  - vm_compute. reflexivity.
  - lia.
Defined.

Lemma flat_map_agrees {A B} (f g : A -> list B) (l : list A) :
  (forall a, In a l -> f a = g a) -> flat_map f l = flat_map g l.
Proof.
  intros Hfg. induction l as [|a l IH]; [reflexivity|].
  simpl. rewrite (Hfg a) by (left; reflexivity).
  rewrite IH; [reflexivity|]. intros b Hb. apply Hfg. right. exact Hb.
Qed.

(** The reference encoder reads the samples inside the image only. *)
Lemma raw_encode_samples a b : same_samples a b -> raw_encode a = raw_encode b.
Proof.
  intros (_ & Hw & Hh & Hd). unfold raw_encode. rewrite <- Hw, <- Hh.
  do 2 f_equal. apply flat_map_agrees. intros y Hy.
  apply flat_map_agrees. intros x Hx.
  apply list_elem_of_In, elem_of_seqZ in Hx, Hy.
  assert (Hin : inside a x y = true).
  { unfold inside. rewrite !andb_true_iff, !Z.leb_le, !Z.ltb_lt. lia. }
  simpl. rewrite !(Hd _ x y Hin). reflexivity.
Qed.


Lemma self_mask_squares_alpha_witness :
  exists src out,
    prepare (flat_square 10 128) 10 20 = Ok src /\
    render (flat_square 10 128) 10 0 20 = Ok out /\
    forall x y, 0 <= x < 10 -> 0 <= y < 10 ->
      exists a, alpha_at src x y = Some a /\ 0 <= a <= 255 /\
        alpha_at out ((10 - 10) / 2 + x) ((10 - 10) / 2 + y)
          = Some (DIV255 (a * a)) /\
        2 * Z.abs (255 * DIV255 (a * a) - a * a) <= 255 /\
        (a = 0 \/ a = 255 -> DIV255 (a * a) = a) /\
        (0 < a < 255 -> DIV255 (a * a) < a).
Proof.
  apply (self_mask_squares_alpha (flat_square 10 128) 10 0 20 10).
  - reflexivity.
  - apply flat_square_well_formed. lia.
  - split; reflexivity.
  - lia.
  - lia.
  - vm_compute. reflexivity.
  - lia.
Defined.

(** The specification's scenario and the driver's ten calls (padding 15,
    corners 20): at size 256 the inner size is 217, the offset 19 and the
    radius 43, and at every size of the driver line 14 gives the exact
    floor. *)
Example driver_scenario :
  inner_size 256 15 = Ok 217 /\ (256 - 217) / 2 = 19 /\
  corner_radius 217 20 = Ok 43 /\
  forallb (fun size => match inner_size size 15 with
                       | Ok n => n =? spec_inner_size size 15
                       | Raise _ => false
                       end)
          [16; 32; 32; 64; 128; 256; 256; 512; 512; 1024] = true.
Proof. repeat split; vm_compute; reflexivity. Qed.

(** On the reference rasteriser, an opaque 10 x 10 source rendered with 20%
    corners has transparent corners and an opaque centre. *)
Example rounded_corners_on_reference :
  exists out,
    render (flat_square 10 255) 10 0 20 = Ok out /\
    alpha_at out 0 0 = Some 0 /\ alpha_at out 9 0 = Some 0 /\
    alpha_at out 0 9 = Some 0 /\ alpha_at out 9 9 = Some 0 /\
    alpha_at out 5 5 = Some 255.
Proof.
  exists (placed (masked (flat_square 10 255) 10 2) 10 0).
  split; [reflexivity|]. repeat split; vm_compute; reflexivity.
Qed.

(** * The requests, the samples and the driver on the reference backend *)

Lemma request_outcome_witness :
  exists out,
    render (convert_RGBA opened_icon) 16 15 20 = Ok out /\
    im_mode out = RGBA /\ im_width out = 16 /\ im_height out = 16 /\
    create_icon_with_padding "doc/icon.png" "icon_16x16.png" 16 15 20 sample_world =
      if decide ("icon_16x16.png"%string ∈ readonly sample_world)
      then (Raise OSError, sample_world)
      else (Ok tt, World (<["icon_16x16.png"%string := png_encode out]>
                            (files sample_world))
                         (readonly sample_world)
                         (stdout sample_world ++ [created_line "icon_16x16.png" 16])).
Proof.
  apply (request_outcome sample_world "doc/icon.png" "icon_16x16.png"
           icon_bytes opened_icon 16 15 20).
  - vm_compute. reflexivity.
  - vm_compute. reflexivity.
  - split; reflexivity.
  - lia.
  - lia.
  - lia.
Defined.

Lemma request_below_one_pixel_witness :
  inner_size 10 95 = Ok 0 /\
  create_icon_with_padding "doc/icon.png" "icon_10x10.png" 10 95 20 sample_world
  = (Raise ValueError, sample_world).
Proof.
  apply (request_below_one_pixel sample_world "doc/icon.png" "icon_10x10.png"
           icon_bytes opened_icon 10 95 20).
  - vm_compute. reflexivity.
  - vm_compute. reflexivity.
  - split; reflexivity.
  - lia.
  - lia.
Defined.

Lemma inner_size_bounds_witness :
  exists n, inner_size 256 15 = Ok n /\
    0 <= n <= 256 /\
    100 * n <= 256 * (100 - 15) < 100 * (n + 2) /\
    (0 < 15 -> n < 256).
Proof.
  apply (inner_size_bounds 256 15); [split; reflexivity|lia].
Defined.

Lemma inner_size_monotone_witness :
  exists n1 n2, inner_size 50 34 = Ok n1 /\ inner_size 51 10 = Ok n2 /\ n1 <= n2.
Proof.
  apply (inner_size_monotone 50 51 34 10); [lia|reflexivity|lia|lia].
Defined.

Lemma paste_scales_samples_by_alpha_witness :
  exists src out,
    prepare (flat_square 10 128) 10 20 = Ok src /\
    render (flat_square 10 128) 10 0 20 = Ok out /\
    forall b x y, 0 <= x < 10 -> 0 <= y < 10 ->
      exists v a, getpixel src b x y = Some v /\ alpha_at src x y = Some a /\
        getpixel out b ((10 - 10) / 2 + x) ((10 - 10) / 2 + y)
          = Some (DIV255 (v * a)) /\
        2 * Z.abs (255 * DIV255 (v * a) - v * a) <= 255 /\
        DIV255 (v * a) <= v /\
        (a = 255 -> DIV255 (v * a) = v) /\ (a = 0 -> DIV255 (v * a) = 0).
Proof.
  apply (paste_scales_samples_by_alpha (flat_square 10 128) 10 0 20 10).
  - reflexivity.
  - apply flat_square_well_formed. lia.
  - split; reflexivity.
  - lia.
  - lia.
  - vm_compute. reflexivity.
  - lia.
Defined.

Lemma opaque_source_reproduced_witness :
  exists out, render (flat_square 4 255) 4 0 0 = Ok out /\
    im_mode out = RGBA /\ im_width out = 4 /\ im_height out = 4 /\
    forall b x y, 0 <= x < 4 -> 0 <= y < 4 ->
      getpixel out b x y = getpixel (flat_square 4 255) b x y.
Proof.
  apply (opaque_source_reproduced (flat_square 4 255) 4).
  - reflexivity.
  - apply flat_square_well_formed. lia.
  - reflexivity.
  - reflexivity.
  - split; reflexivity.
  - intros x y _ _. reflexivity.
Defined.

Lemma rounded_corners_samples_witness :
  exists img_resized out,
    resize (flat_square 10 255) 10 10 = Ok img_resized /\
    render (flat_square 10 255) 10 0 20 = Ok out /\
    forall b x y, 0 <= x < 10 -> 0 <= y < 10 ->
      (rr_covers 0 0 (10 - 1) (10 - 1) (Z.max 1 (10 * 20 / 100)) x y = false ->
         getpixel out b ((10 - 10) / 2 + x) ((10 - 10) / 2 + y) = Some 0) /\
      (rr_covers 0 0 (10 - 1) (10 - 1) (Z.max 1 (10 * 20 / 100)) x y = true ->
         im_data img_resized A_band x y = 255 ->
         getpixel out b ((10 - 10) / 2 + x) ((10 - 10) / 2 + y)
           = Some (im_data img_resized b x y)).
Proof.
  apply (rounded_corners_samples (flat_square 10 255) 10 0 20 10).
  - reflexivity.
  - apply flat_square_well_formed. lia.
  - split; reflexivity.
  - lia.
  - lia.
  - vm_compute. reflexivity.
  - lia.
Defined.

Lemma oversized_inner_is_cropped_witness :
  exists src out,
    prepare (flat_square 10 255) 12 20 = Ok src /\
    render (flat_square 10 255) 10 (-20) 20 = Ok out /\
    im_width src = 12 /\ im_height src = 12 /\
    im_width out = 10 /\ im_height out = 10 /\
    (10 - 12) / 2 < 0 /\
    forall b x y, 0 <= x < 10 -> 0 <= y < 10 ->
      0 <= x - (10 - 12) / 2 < 12 /\ 0 <= y - (10 - 12) / 2 < 12 /\
      getpixel out b x y =
      Some (BLEND (im_data src A_band (x - (10 - 12) / 2) (y - (10 - 12) / 2)) 0
                  (im_data src b (x - (10 - 12) / 2) (y - (10 - 12) / 2))).
Proof.
  apply (oversized_inner_is_cropped (flat_square 10 255) 10 (-20) 20 12).
  - reflexivity.
  - lia.
  - split; reflexivity.
  - lia.
  - vm_compute. reflexivity.
Defined.

Lemma rerun_overwrites_same_bytes_witness :
  create_icon_with_padding "doc/icon.png" "icon_4x4.png" 4 0 0 after_one_call =
    (Ok tt, World (files after_one_call) (readonly after_one_call)
                  (stdout after_one_call ++ [created_line "icon_4x4.png" 4])).
Proof.
  apply (rerun_overwrites_same_bytes sample_world after_one_call
           "doc/icon.png" "icon_4x4.png" 4 0 0).
  - discriminate.
  - vm_compute. reflexivity.
Defined.

Lemma main_generates_icons_witness :
  exists w', main sample_world = (Ok tt, w') /\
    readonly w' = readonly sample_world /\
    stdout w' = stdout sample_world ++ lines_of calls ++ [done_line] /\
    (forall size, size ∈ icon_sizes ->
       (output_path_1x size, size) ∈ calls /\
       (output_path_2x size, size * 2) ∈ calls) /\
    (forall c, c ∈ calls ->
       exists out,
         render (convert_RGBA opened_icon) (snd c) padding corner_radius_percent
           = Ok out /\
         im_mode out = RGBA /\ im_width out = snd c /\ im_height out = snd c /\
         files w' !! fst c = Some (png_encode out)) /\
    files w' !! input_icon = Some icon_bytes /\
    (forall path, path ∉ map fst calls ->
       files w' !! path = files sample_world !! path).
Proof.
  apply (main_generates_icons sample_world icon_bytes opened_icon).
  - vm_compute. reflexivity.
  - vm_compute. reflexivity.
  - intros c _. apply not_elem_of_empty.
Defined.

Lemma main_needs_source_witness :
  main (World ∅ ∅ []) = (Raise OSError, World ∅ ∅ []).
Proof.
  apply (main_needs_source (World ∅ ∅ [])). left. reflexivity.
Defined.

Lemma main_stops_at_first_failure_witness :
  exists w', main blocked_world = (Raise OSError, w') /\
    readonly w' = readonly blocked_world /\
    stdout w' = stdout blocked_world ++ lines_of (take 1 calls) /\
    (forall c, c ∈ take 1 calls ->
       files w' !! fst c = Some (png_encode (rendered opened_icon (snd c))) /\
       render (convert_RGBA opened_icon) (snd c) padding corner_radius_percent
         = Ok (rendered opened_icon (snd c))) /\
    (forall path, path ∉ map fst (take 1 calls) ->
       files w' !! path = files blocked_world !! path).
Proof.
  apply (main_stops_at_first_failure blocked_world icon_bytes opened_icon 1
           (output_path_2x 16, 32)).
  - vm_compute. reflexivity.
  - vm_compute. reflexivity.
  - reflexivity.
  - change (output_path_2x 16 ∈ ({[ blocked_path ]} : gset string)).
    apply elem_of_singleton. reflexivity.
  - intros c Hc. apply list_elem_of_singleton in Hc. subst c.
    change (output_path_1x 16 ∉ ({[ blocked_path ]} : gset string)).
    apply not_elem_of_singleton. vm_compute. discriminate.
Defined.

Lemma main_rerun_keeps_files_witness :
  exists w2, main after_main = (Ok tt, w2) /\
    files w2 = files after_main /\ readonly w2 = readonly after_main /\
    stdout w2 = stdout after_main ++ lines_of calls ++ [done_line].
Proof.
  apply (main_rerun_keeps_files sample_world after_main).
  apply (main_returns sample_world icon_bytes opened_icon).
  - vm_compute. reflexivity.
  - vm_compute. reflexivity.
  - intros c _. apply not_elem_of_empty.
Defined.
